(** * PNGtuberSimple: the volume monitor and the overlay view of [script.py]

    A shallow embedding of [script.py].  Python floats are binary64 values
    and are modelled by Rocq's primitive binary64 floats, so that every
    comparison, sum and rounding below is the one the interpreter performs.
    The Qt widgets and the Windows audio API are collaborators: a pixmap is
    one of the two loaded images, painting records what [setPixmap]
    received, and the audio sessions and the peak meter are oracles indexed
    by the time of the call.  Time is a logical clock in milliseconds: a
    [time.sleep] fixes the moment before which the thread cannot run, and
    everything else takes no time.  The COM calls other than
    [GetPeakValue], which [run] guards with [try], are taken to succeed;
    [CoInitialize] and [CoUninitialize] leave no trace here.  A handler of
    the view and a callback of the monitor are whole calls: nothing below
    speaks of a thread switch inside one of them. *)

From Stdlib Require Import ZArith List Bool String Ascii Lia.
From Stdlib Require Import Floats.
Import ListNotations.

Set Warnings "-inexact-float".

Local Open Scope float_scope.

(** ** Python built-ins on floats *)

(** [min(a, b)]: the second argument replaces the first only when it is
    strictly smaller. *)
Definition py_min (a b : float) : float := if b <? a then b else a.

(** [max(a, b)]: the second argument replaces the first only when it is
    strictly greater. *)
Definition py_max (a b : float) : float := if a <? b then b else a.

(** [a > b] on floats. *)
Definition py_gt (a b : float) : bool := b <? a.

(** Nearest integer to [num / den] for [den > 0], ties to the even one. *)
Definition round_half_even (num den : Z) : Z :=
  let q := (num / den)%Z in
  let r := (num mod den)%Z in
  match (2 * r ?= den)%Z with
  | Lt => q
  | Gt => (q + 1)%Z
  | Eq => if Z.even q then q else (q + 1)%Z
  end.

(** [round(x, ndigits)] for a float [x] and [0 <= ndigits]: CPython prints
    the exact binary value of [x] correctly rounded (half to even) to
    [ndigits] decimals and reads the decimal back as the nearest binary64
    value.  A value that is not finite is returned as it is. *)
Definition py_round (x : float) (ndigits : Z) : float :=
  match Prim2SF x with
  | S754_finite s m e =>
      let p := (10 ^ ndigits)%Z in
      let n := if (0 <=? e)%Z then (Zpos m * 2 ^ e * p)%Z
               else round_half_even (Zpos m * p) (2 ^ (- e)) in
      match n with
      | Zpos n' =>
          SF2Prim (SFdiv prec emax (S754_finite s n' 0) (S754_finite false (Z.to_pos p) 0))
      | _ => SF2Prim (S754_zero s)
      end
  | _ => x
  end.

(** ** Configuration *)

(** The JSON object of [config.json]. *)
Record Config := {
  TARGET_APP : string;
  VOLUME_THRESHOLD : float;
  IMAGE_HIGH_VOLUME : string;
  IMAGE_LOW_VOLUME : string;
  MAX_IMAGE_SIZE : Z;
  INCREASE_SIZE_KEY : string;
  DECREASE_SIZE_KEY : string;
  CLOSE_KEY : string
}.

Definition DEFAULT_CONFIG : Config := {|
  TARGET_APP := "EDCoPilot.exe";
  VOLUME_THRESHOLD := 0.2;
  IMAGE_HIGH_VOLUME := "640px-Neurofumo.png";
  IMAGE_LOW_VOLUME := "640px-Neurofumodark.png";
  MAX_IMAGE_SIZE := 700;
  INCREASE_SIZE_KEY := "Up";
  DECREASE_SIZE_KEY := "Down";
  CLOSE_KEY := "F4"
|}.

(** ** The overlay view: class [App] *)

(** The two pixmaps the constructor loads.  [QPixmap] has no equality of
    its own, so [!=] between them is object identity. *)
Inductive pixmap := image_high_orig | image_low_orig.

Definition pixmap_eqb (a b : pixmap) : bool :=
  match a, b with
  | image_high_orig, image_high_orig | image_low_orig, image_low_orig => true
  | _, _ => false
  end.

(** [a != b] where [a] is [self.current_image] ([None] before the first
    sample) and [b] one of the two pixmaps. *)
Definition image_ne (a : option pixmap) (b : pixmap) : bool :=
  match a with
  | None => true
  | Some a' => negb (pixmap_eqb a' b)
  end.

(** The fields of [App] that the sample callback, the input handlers and
    the animation timer read and write.  [painted] lists the calls of
    [label.setPixmap], newest first, each with the pixmap and the scale it
    was drawn at. *)
Record App := {
  scale : float;
  target_scale : float;
  current_image : option pixmap;
  painted : list (pixmap * float)
}.

Definition set_scale (s : float) (a : App) : App :=
  {| scale := s; target_scale := target_scale a;
     current_image := current_image a; painted := painted a |}.

Definition set_target_scale (t : float) (a : App) : App :=
  {| scale := scale a; target_scale := t;
     current_image := current_image a; painted := painted a |}.

Definition set_current_image (i : pixmap) (a : App) : App :=
  {| scale := scale a; target_scale := target_scale a;
     current_image := Some i; painted := painted a |}.

(** What the label shows: the pixmap of the latest [setPixmap]. *)
Definition displayed (a : App) : option (pixmap * float) := hd_error (painted a).

Section Overlay.

Variable CONFIG : Config.

(** [App.resize_image] *)
Definition resize_image (a : App) : App :=
  match current_image a with
  | Some img =>
      {| scale := scale a; target_scale := target_scale a;
         current_image := current_image a;
         painted := (img, scale a) :: painted a |}
  | None => a
  end.

(** The image [App.update_image] picks for a sample. *)
Definition new_image (volume : float) : pixmap :=
  if py_gt volume (VOLUME_THRESHOLD CONFIG) then image_high_orig
  else image_low_orig.

(** [App.update_image] *)
Definition update_image (volume : float) (a : App) : App :=
  if image_ne (current_image a) (new_image volume)
  then resize_image (set_current_image (new_image volume) a)
  else a.

(** [App.adjust_scale]; [delta] is the wheel's vertical angle delta. *)
Definition adjust_scale (delta : Z) (a : App) : App :=
  if (0 <? delta)%Z
  then set_target_scale (py_min 2.0 (target_scale a + 0.1)) a
  else set_target_scale (py_max 0.1 (target_scale a - 0.1)) a.

(** [App.increase_size] *)
Definition increase_size (a : App) : App :=
  set_target_scale (py_min 2.0 (target_scale a + 0.1)) a.

(** [App.decrease_size] *)
Definition decrease_size (a : App) : App :=
  set_target_scale (py_max 0.1 (target_scale a - 0.1)) a.

(** [App.animate_resize], the slot of the 16 ms timer. *)
Definition animate_resize (a : App) : App :=
  if py_gt (abs (target_scale a - scale a)) 0.001
  then
    let step := if py_gt (target_scale a) (scale a) then 0.02 else (-0.02) in
    resize_image (set_scale (py_round (scale a + step) 4) a)
  else a.

(** The events the Qt loop and the monitor deliver to the view. *)
Inductive ui_event :=
| Wheel (delta : Z)
| IncreaseKey
| DecreaseKey
| TimerTick
| Sample (volume : float).

Definition handle (a : App) (ev : ui_event) : App :=
  match ev with
  | Wheel delta => adjust_scale delta a
  | IncreaseKey => increase_size a
  | DecreaseKey => decrease_size a
  | TimerTick => animate_resize a
  | Sample v => update_image v a
  end.

(** The view as the constructor leaves it before the first sample. *)
Definition App_fields : App :=
  {| scale := 1.0; target_scale := 1.0; current_image := None; painted := [] |}.

End Overlay.

(** ** The audio collaborators and the monitor thread: class [VolumeMonitor] *)

Local Open Scope string_scope.
Local Open Scope Z_scope.

(** [str.lower] on the characters [A]..[Z]; process names are modelled as
    ASCII strings. *)
Definition lower_ascii (c : ascii) : ascii :=
  let n := nat_of_ascii c in
  if (Nat.leb 65 n && Nat.leb n 90)%bool then ascii_of_nat (n + 32) else c.

Fixpoint lower (s : string) : string :=
  match s with
  | EmptyString => EmptyString
  | String c r => String (lower_ascii c) (lower r)
  end.

(** An [IAudioMeterInformation] handle. *)
Definition meter := nat.

(** What [psutil] knows of the process that owns a session. *)
Record process := { name : string }.

(** An audio session of [AudioUtilities.GetAllSessions()]: its owning
    process, if any, and the meter its control answers
    [QueryInterface(IAudioMeterInformation)] with. *)
Record session := { Process : option process; ctl : meter }.

(** The outcome of [meter.GetPeakValue()]: a peak, or an exception with
    its text. *)
Inductive reading := Peak (v : float) | Raise (exc : string).

(** Where the thread stands in [run]: at the head of the outer loop, at the
    head of the inner loop with the meter it holds, or past the loops. *)
Inductive MonitorState := Searching | Attached (m : meter) | Stopped.

(** What the program does to the outside, in order. *)
Inductive effect :=
| Stdout (line : string)
| Callback (volume : float)
| LoadPixmap (path : string)
| TimerStart (ms : Z)
| ThreadStart.

(** The program: the view, the monitor's [running] flag, the thread's
    position, the time in milliseconds until which the thread sleeps, the
    current time, the effects so far and whether the close event has been
    accepted. *)
Record System := {
  app : App;
  running : bool;
  state : MonitorState;
  wake : Z;
  now : Z;
  log : list effect;
  accepted : bool
}.

Definition set_app (a : App) (s : System) : System :=
  {| app := a; running := running s; state := state s; wake := wake s;
     now := now s; log := log s; accepted := accepted s |}.

Definition set_state (q : MonitorState) (s : System) : System :=
  {| app := app s; running := running s; state := q; wake := wake s;
     now := now s; log := log s; accepted := accepted s |}.

Definition set_now (t : Z) (s : System) : System :=
  {| app := app s; running := running s; state := state s; wake := wake s;
     now := t; log := log s; accepted := accepted s |}.

Definition emit (e : effect) (s : System) : System :=
  {| app := app s; running := running s; state := state s; wake := wake s;
     now := now s; log := log s ++ [e]; accepted := accepted s |}.

(** [print(line)] *)
Definition print (line : string) (s : System) : System := emit (Stdout line) s.

(** [time.sleep(ms / 1000)]: the thread does nothing until [ms]
    milliseconds have passed, whatever happens to the flag meanwhile. *)
Definition sleep (ms : Z) (s : System) : System :=
  {| app := app s; running := running s; state := state s; wake := now s + ms;
     now := now s; log := log s; accepted := accepted s |}.

(** [VolumeMonitor.stop] *)
Definition stop (s : System) : System :=
  {| app := app s; running := false; state := state s; wake := wake s;
     now := now s; log := log s; accepted := accepted s |}.

Definition is_stopped (q : MonitorState) : bool :=
  match q with Stopped => true | _ => false end.

Section Program.

Variable CONFIG : Config.

(** [AudioUtilities.GetAllSessions()] when called at a given time. *)
Variable GetAllSessions : Z -> list session.

(** [meter.GetPeakValue()] when called at a given time. *)
Variable GetPeakValue : meter -> Z -> reading.

(** The test of the [for] loop of [run] on one session. *)
Definition is_target (s : session) : bool :=
  match Process s with
  | Some p => String.eqb (lower (name p)) (lower (TARGET_APP CONFIG))
  | None => false
  end.

(** The [for] loop of [run]: the first session that passes the test. *)
Fixpoint find_target (sessions : list session) : option session :=
  match sessions with
  | [] => None
  | s :: rest => if is_target s then Some s else find_target rest
  end.

(** [self.callback(volume)]: the monitor was built with
    [self.update_image], which it calls on its own thread. *)
Definition callback (volume : float) (s : System) : System :=
  emit (Callback volume) (set_app (update_image CONFIG volume (app s)) s).

(** One evaluation of a loop head of [VolumeMonitor.run] and of the body
    it guards, up to the next loop head. *)
Definition run_iteration (s : System) : System :=
  match state s with
  | Searching =>
      if running s then
        let s1 := print "Searching for target application..." s in
        match find_target (GetAllSessions (now s)) with
        | Some target_session =>
            set_state (Attached (ctl target_session))
              (print ("Target application " ++ TARGET_APP CONFIG ++ " found!") s1)
        | None =>
            sleep 15000
              (callback 0.0%float
                 (print ("Error: " ++ TARGET_APP CONFIG
                           ++ " not found. Retrying in 15 seconds...") s1))
        end
      else set_state Stopped s
  | Attached m =>
      if running s then
        sleep 100
          match GetPeakValue m (now s) with
          | Peak peak_volume => callback peak_volume s
          | Raise exc =>
              callback 0.0%float (print ("Error fetching volume: " ++ exc) s)
          end
      else set_state Searching s
  | Stopped => s
  end.

(** [Thread.join(timeout)] seen from the caller: time passes, the thread
    runs whenever its sleep is over, and the call returns when the thread
    has left [run] or at the deadline, whichever comes first. *)
Fixpoint join_loop (fuel : nat) (deadline : Z) (s : System) : System :=
  match state s with
  | Stopped => s
  | _ =>
      let t := Z.max (now s) (wake s) in
      if deadline <? t then set_now deadline s
      else
        match fuel with
        | O => set_now deadline s
        | S k => join_loop k deadline (run_iteration (set_now t s))
        end
  end.

(** The thread sleeps at least 100 ms after at most two loop heads, so it
    takes at most [2 * (timeout / 100) + 2] of them before the deadline. *)
Definition join (timeout : Z) (s : System) : System :=
  join_loop (Z.to_nat (2 * (timeout / 100) + 3)) (now s + timeout) s.

(** [event.accept()] *)
Definition accept (s : System) : System :=
  {| app := app s; running := running s; state := state s; wake := wake s;
     now := now s; log := log s; accepted := true |}.

(** [App.closeEvent] *)
Definition closeEvent (s : System) : System :=
  accept (join 2000 (stop (print "Shutting down application..." s))).

(** What can happen next: the thread reaches a loop head, time passes,
    some other code calls [monitor.stop()], Qt delivers an event to the
    view, or the window is asked to close. *)
Inductive action :=
| Work
| Wait (d : Z)
| Stop
| Ui (ev : ui_event)
| Close.

(** The thread can only run when its sleep is over and it has not left
    [run]; time only moves forward. *)
Definition step (s : System) (a : action) : option System :=
  match a with
  | Work =>
      if ((wake s <=? now s) && negb (is_stopped (state s)))%bool
      then Some (run_iteration s) else None
  | Wait d => if 0 <=? d then Some (set_now (now s + d) s) else None
  | Stop => Some (stop s)
  | Ui ev => Some (set_app (handle CONFIG (app s) ev) s)
  | Close => Some (closeEvent s)
  end.

Fixpoint exec (s : System) (acts : list action) : option System :=
  match acts with
  | [] => Some s
  | a :: rest =>
      match step s a with
      | Some s' => exec s' rest
      | None => None
      end
  end.

(** Whether an action clears the [running] flag. *)
Definition clears_flag (a : action) : bool :=
  match a with Stop | Close => true | _ => false end.

(** The result of constructing [App]: [sys.exit(code)] after some output,
    or the program with its thread started. *)
Inductive startup :=
| SystemExit (code : Z) (out : list effect)
| Constructed (s : System).

(** [App.__init__], given [os.path.exists]: the existence test, then the
    two pixmaps, the scales, the 16 ms timer, the monitor thread, and last
    [current_image = None] with the view's own [update_image(0.0)].  The
    window flags, the label and the shortcuts are Qt's business. *)
Definition App_init (path_exists : string -> bool) : startup :=
  if (negb (path_exists (IMAGE_HIGH_VOLUME CONFIG))
      || negb (path_exists (IMAGE_LOW_VOLUME CONFIG)))%bool
  then SystemExit 1 [Stdout "Error: Image files not found."]
  else
    let started :=
      {| app := App_fields;
         running := true;
         state := Searching;
         wake := 0;
         now := 0;
         log := [LoadPixmap (IMAGE_HIGH_VOLUME CONFIG);
                 LoadPixmap (IMAGE_LOW_VOLUME CONFIG);
                 TimerStart 16;
                 ThreadStart];
         accepted := false |} in
    Constructed (set_app (update_image CONFIG 0.0%float (app started)) started).

End Program.

(** ** Runs of the view *)

(** [n] timeouts of the animation timer in a row. *)
Fixpoint ticks (n : nat) (a : App) : App :=
  match n with
  | O => a
  | S k => ticks k (animate_resize a)
  end.

(** The float nearest to [z / 100], for a small natural number [z]. *)
Definition hundredths (z : nat) : float :=
  (of_uint63 (Uint63.of_Z (Z.of_nat z)) / 100)%float.

(** The scale one timeout of [animate_resize] leaves, from the target and
    the scale it finds. *)
Definition next_scale (target current : float) : float :=
  if py_gt (abs (target - current)) 0.001
  then py_round (current + (if py_gt target current then 0.02 else (-0.02)))%float 4
  else current.

Fixpoint scale_after (n : nat) (target current : float) : float :=
  match n with
  | O => current
  | S k => scale_after k target (next_scale target current)
  end.

(** The view after a sequence of events. *)
Definition deliver (CONFIG : Config) (a : App) (evs : list ui_event) : App :=
  fold_left (handle CONFIG) evs a.

(** The view once the constructor has delivered its own first sample. *)
Definition App_constructed (CONFIG : Config) : App :=
  update_image CONFIG 0.0%float App_fields.

(** Whether a float occurs in a list, bit for bit. *)
Definition float_mem (x : float) (l : list float) : bool :=
  existsb (PrimFloat.Leibniz.eqb x) l.

(** Worklist closure of a set of target scales under the increase and the
    decrease of [adjust_scale]. *)
Fixpoint close_targets (fuel : nat) (todo seen : list float) : list float :=
  match fuel with
  | O => seen
  | S k =>
      match todo with
      | [] => seen
      | x :: rest =>
          if float_mem x seen then close_targets k rest seen
          else close_targets k
                 (py_min 2.0 (x + 0.1) :: py_max 0.1 (x - 0.1) :: rest)%float
                 (x :: seen)
      end
  end.

(** The target scales the input handlers can produce from 1.0: the 59
    floats of the closure of [{1.0}]. *)
Definition target_scales : list float :=
  Eval vm_compute in close_targets 400 [1.0%float] [].

(** What [adjust_scale] promises of one target scale: it lies in
    [0.1, 2.0], both moves stay among the known targets, and neither moves
    further than one step. *)
Definition target_ok (t : float) : bool :=
  let up := py_min 2.0 (t + 0.1)%float in
  let down := py_max 0.1 (t - 0.1)%float in
  ((0.1 <=? t) && (t <=? 2.0)
   && float_mem up target_scales && float_mem down target_scales
   && (t - 0.1 <=? up) && (up <=? t + 0.1)
   && (t - 0.1 <=? down) && (down <=? t + 0.1)
   && (t - 0.1 <=? t) && (t <=? t + 0.1))%float%bool.

(** ** Runs of the program *)

(** The volumes the monitor handed to its callback, in order. *)
Fixpoint callbacks (l : list effect) : list float :=
  match l with
  | [] => []
  | Callback v :: r => v :: callbacks r
  | _ :: r => callbacks r
  end.

(** [n] polls of the inner loop, 100 ms apart. *)
Fixpoint polls (n : nat) : list action :=
  match n with
  | O => []
  | S k => Work :: Wait 100 :: polls k
  end.

(** After [monitor.stop()] is called in [s], the thread can have left
    [run] no later than [bound] milliseconds afterwards. *)
Definition stops_within (CONFIG : Config) (GetAllSessions : Z -> list session)
    (GetPeakValue : meter -> Z -> reading) (s : System) (bound : Z) : Prop :=
  exists acts s',
    exec CONFIG GetAllSessions GetPeakValue (stop s) acts = Some s'
    /\ state s' = Stopped /\ now s' <= now s + bound.

(** Concrete collaborators: no audio session at all; one session of the
    target under another spelling, whose meter fails on every read. *)
Definition no_sessions : Z -> list session := fun _ => [].

Definition one_session : Z -> list session :=
  fun _ => [ {| Process := None; ctl := 3%nat |};
             {| Process := Some {| name := "EDCOPILOT.EXE" |}; ctl := 7%nat |} ].

Definition dead_meter : meter -> Z -> reading := fun _ _ => Raise "session ended".

Definition every_path : string -> bool := fun _ => true.

(** The program as [App.__init__] leaves it with the default configuration
    and both image files present. *)
Definition booted : System :=
  {| app := App_constructed DEFAULT_CONFIG;
     running := true;
     state := Searching;
     wake := 0;
     now := 0;
     log := [LoadPixmap "640px-Neurofumo.png";
             LoadPixmap "640px-Neurofumodark.png";
             TimerStart 16;
             ThreadStart];
     accepted := false |}.

(** The same program one second into the first 15 s sleep of a monitor that
    found no session. *)
Definition mid_wait : System :=
  {| app := App_constructed DEFAULT_CONFIG;
     running := true;
     state := Searching;
     wake := 15000;
     now := 1000;
     log := [LoadPixmap "640px-Neurofumo.png";
             LoadPixmap "640px-Neurofumodark.png";
             TimerStart 16;
             ThreadStart;
             Stdout "Searching for target application...";
             Stdout "Error: EDCoPilot.exe not found. Retrying in 15 seconds...";
             Callback 0.0%float];
     accepted := false |}.

(** The same program with the thread holding meter 7. *)
Definition attached_example : System := set_state (Attached 7%nat) booted.

(** A meter that reads a peak of 0.5 every time. *)
Definition loud_meter : meter -> Z -> reading := fun _ _ => Peak 0.5%float.

(** The program after [monitor.stop()] and the thread's exit. *)
Definition stopped_example : System := set_state Stopped (stop booted).

(** A session of user input with the monitor attaching in between. *)
Definition busy_session : list action :=
  [Ui IncreaseKey; Ui TimerTick; Work; Work; Wait 100; Work;
   Ui (Wheel (-120)); Ui TimerTick; Ui TimerTick].

(** ** Exact sizes of target moves *)

(** The exact value of a finite float times [2^1074], an integer; 0 for
    the values that are not finite. *)
Definition scaled (x : float) : Z :=
  match Prim2SF x with
  | S754_finite sign m e =>
      (if sign then -1 else 1) * Zpos m * 2 ^ (e + 1074)
  | _ => 0
  end.

(** What one move of the target does from [t]: whether it is the
    increase, the decrease or none, the new target lies between
    [t - 0.1] and [t + 0.1] as binary64 computes them, and its exact
    distance from [t] is at most the float 0.10000000000000009. *)
Definition move_ok (t : float) : bool :=
  let near (t' : float) :=
    ((t - 0.1 <=? t')%float && (t' <=? t + 0.1)%float
     && (Z.abs (scaled t' - scaled t) <=? scaled 0.10000000000000009%float))%bool in
  (near (py_min 2.0 (t + 0.1)%float)
   && near (py_max 0.1 (t - 0.1)%float)
   && near t)%bool.

(** ** Comparing names without regard to case *)

(** Whether a character is one of [A]..[Z]. *)
Definition is_upper (c : ascii) : bool :=
  (Nat.leb 65 (nat_of_ascii c) && Nat.leb (nat_of_ascii c) 90)%bool.

(** Whether two characters are the same, or the capital and the small form
    of one letter. *)
Definition same_letter (c d : ascii) : bool :=
  (Ascii.eqb c d
   || (is_upper c && Nat.eqb (nat_of_ascii d) (nat_of_ascii c + 32))
   || (is_upper d && Nat.eqb (nat_of_ascii c) (nat_of_ascii d + 32)))%bool.

(** Whether two names have the same length and the same letters, position
    by position, without regard to case. *)
Fixpoint caseless_eq (a b : string) : bool :=
  match a, b with
  | EmptyString, EmptyString => true
  | String c a', String d b' => (same_letter c d && caseless_eq a' b')%bool
  | _, _ => false
  end.

(** Whether a name is made of ASCII characters only; on such a name
    [str.lower] changes the letters [A]..[Z] and nothing else. *)
Fixpoint ascii_only (a : string) : bool :=
  match a with
  | EmptyString => true
  | String c a' => (Nat.ltb (nat_of_ascii c) 128 && ascii_only a')%bool
  end.

(** Every character. *)
Definition all_ascii : list ascii := map ascii_of_nat (seq 0 256).


(** ** The grid of scales *)

(** The scales the animation can produce from 1.0: the 96 floats nearest to
    0.10, 0.12, ..., 2.00. *)
Definition scale_set : list float :=
  Eval vm_compute in map (fun k => hundredths (10 + 2 * k)) (seq 0 96).

(** How many scales of the grid are strictly nearer to the target than the
    given one. *)
Definition rank (t s : float) : nat :=
  List.length (filter (fun g => (abs (t - g) <? abs (t - s))%float) scale_set).

(** What one timeout does from scale [s] with target [t]: the next scale
    is on the grid, and when the gap exceeds 0.001 the timeout brings the
    scale strictly nearer to the target, in distance and in rank. *)
Definition grid_ok (t s : float) : bool :=
  let s' := next_scale t s in
  (float_mem s' scale_set
   && (0.1 <=? s)%float && (s <=? 2.0)%float
   && Nat.leb (rank t s) 95
   && (if py_gt (abs (t - s)) 0.001
       then (abs (t - s') <? abs (t - s))%float && Nat.ltb (rank t s') (rank t s)
       else true))%bool.

(** The view shows what it holds: some image is current and the latest
    [setPixmap] drew that image at the current scale; the scale is on the
    grid and the target is one of the reachable targets. *)
Definition view_inv (a : App) : Prop :=
  (exists img, current_image a = Some img
               /\ displayed a = Some (img, scale a))
  /\ In (scale a) scale_set
  /\ In (target_scale a) target_scales.

(** [n] searches of the outer loop, 15 s apart. *)
Fixpoint searches (n : nat) : list action :=
  match n with
  | O => []
  | S k => Work :: Wait 15000 :: searches k
  end.

(** Between two sleeps the thread is never further from its wake-up than
    the sleep it is in. *)
Definition wake_inv (s : System) : Prop :=
  match state s with
  | Searching => wake s <= now s + 15000
  | Attached _ => wake s <= now s + 100
  | Stopped => True
  end.

(** ** Dragging the window: class [ImageLabel] *)

(** The value a 32-bit C [int] holds for an integer result: the
    representative in [-2^31, 2^31) of its class modulo [2^32]. *)
Definition wrap_int (z : Z) : Z := (z + 2 ^ 31) mod 2 ^ 32 - 2 ^ 31.

(** A [QPoint]: two C [int]s. *)
Record QPoint := { px : Z; py : Z }.

(** [a - b] and [a + b] on points, coordinate by coordinate in [int]. *)
Definition QPoint_sub (a b : QPoint) : QPoint :=
  {| px := wrap_int (px a - px b); py := wrap_int (py a - py b) |}.

Definition QPoint_add (a b : QPoint) : QPoint :=
  {| px := wrap_int (px a + px b); py := wrap_int (py a + py b) |}.

Inductive MouseButton := LeftButton | RightButton | MiddleButton.

(** The label's two fields and the top-left corner of its parent window,
    which is what [frameGeometry().topLeft()] reads and [move] writes. *)
Record ImageLabel := {
  _drag_active : bool;
  _drag_position : QPoint;
  topLeft : QPoint
}.

(** [ImageLabel.__init__] in a window placed at [corner]. *)
Definition ImageLabel_init (corner : QPoint) : ImageLabel :=
  {| _drag_active := false;
     _drag_position := {| px := 0; py := 0 |};
     topLeft := corner |}.

(** [ImageLabel.mousePressEvent] *)
Definition mousePressEvent (button : MouseButton) (globalPos : QPoint)
    (l : ImageLabel) : ImageLabel :=
  match button with
  | LeftButton =>
      {| _drag_active := true;
         _drag_position := QPoint_sub globalPos (topLeft l);
         topLeft := topLeft l |}
  | _ => l
  end.

(** [ImageLabel.mouseMoveEvent] *)
Definition mouseMoveEvent (globalPos : QPoint) (l : ImageLabel) : ImageLabel :=
  if _drag_active l
  then {| _drag_active := _drag_active l;
          _drag_position := _drag_position l;
          topLeft := QPoint_sub globalPos (_drag_position l) |}
  else l.

(** [ImageLabel.mouseReleaseEvent] *)
Definition mouseReleaseEvent (l : ImageLabel) : ImageLabel :=
  {| _drag_active := false;
     _drag_position := _drag_position l;
     topLeft := topLeft l |}.

(** The mouse events Qt delivers to the label. *)
Inductive mouse_event :=
| Press (button : MouseButton) (globalPos : QPoint)
| Move (globalPos : QPoint)
| Release (button : MouseButton).

Definition mouse (l : ImageLabel) (ev : mouse_event) : ImageLabel :=
  match ev with
  | Press button globalPos => mousePressEvent button globalPos l
  | Move globalPos => mouseMoveEvent globalPos l
  | Release _ => mouseReleaseEvent l
  end.

(** Whether a mouse event is a press of the left button. *)
Definition is_left_press (ev : mouse_event) : bool :=
  match ev with Press LeftButton _ => true | _ => false end.

(** ** Facts about binary64 comparisons *)

Lemma SFcompare_antisym (x y : spec_float) :
  SFcompare y x = option_map CompOpp (SFcompare x y).
Proof.
  destruct x as [sx|sx| |sx mx ex], y as [sy|sy| |sy my ey]; simpl;
    try reflexivity;
    try (destruct sx; reflexivity);
    try (destruct sy; reflexivity);
    try (destruct sx, sy; reflexivity).
  destruct sx, sy; try reflexivity;
    rewrite (Z.compare_antisym ex ey);
    destruct (ex ?= ey) eqn:E; simpl; try reflexivity;
    rewrite (Pos.compare_cont_antisym mx my Eq); simpl;
    rewrite ?CompOpp_involutive; reflexivity.
Qed.

Lemma float_leb_not_gt (a b : float) :
  (a <=? b)%float = true -> py_gt a b = false.
Proof.
  unfold py_gt. rewrite leb_spec, ltb_spec. unfold SFleb, SFltb.
  rewrite (SFcompare_antisym (Prim2SF a) (Prim2SF b)).
  destruct (SFcompare (Prim2SF a) (Prim2SF b)) as [[| |]|]; simpl; congruence.
Qed.

Lemma float_eqb_not_gt (a b : float) :
  (a =? b)%float = true -> py_gt a b = false.
Proof.
  unfold py_gt. rewrite eqb_spec, ltb_spec. unfold SFeqb, SFltb.
  rewrite (SFcompare_antisym (Prim2SF a) (Prim2SF b)).
  destruct (SFcompare (Prim2SF a) (Prim2SF b)) as [[| |]|]; simpl; congruence.
Qed.

Lemma float_mem_In (x : float) (l : list float) :
  float_mem x l = true -> In x l.
Proof.
  unfold float_mem. rewrite existsb_exists. intros [y [Hin Heq]].
  apply FloatAxioms.Leibniz.eqb_spec in Heq. subst. exact Hin.
Qed.

(** ** The view: image selection *)

Lemma current_image_update (CONFIG : Config) (v : float) (a : App) :
  current_image (update_image CONFIG v a) = Some (new_image CONFIG v).
Proof.
  unfold update_image, image_ne, resize_image.
  destruct (current_image a) as [img|] eqn:E; simpl.
  - destruct img, (new_image CONFIG v); simpl; congruence.
  - reflexivity.
Qed.

Lemma update_image_same (CONFIG : Config) (v : float) (a : App) :
  current_image a = Some (new_image CONFIG v) -> update_image CONFIG v a = a.
Proof.
  intros E. unfold update_image, image_ne. rewrite E.
  destruct (new_image CONFIG v); reflexivity.
Qed.

Lemma painted_update (CONFIG : Config) (v : float) (a : App) :
  painted (update_image CONFIG v a) = painted a
  \/ painted (update_image CONFIG v a) = (new_image CONFIG v, scale a) :: painted a.
Proof.
  unfold update_image, resize_image.
  destruct (image_ne (current_image a) (new_image CONFIG v)); simpl; auto.
Qed.

(** C1. For every sample [v] and every earlier state of the view, after
    [update_image v] the High image is the current one iff
    [v > VOLUME_THRESHOLD], and the Low image is the current one iff not;
    a sample equal to the threshold selects Low. *)
Theorem update_image_threshold (CONFIG : Config) (v : float) (a : App) :
  let a' := update_image CONFIG v a in
  (current_image a' = Some image_high_orig
     <-> py_gt v (VOLUME_THRESHOLD CONFIG) = true)
  /\ (current_image a' = Some image_low_orig
     <-> py_gt v (VOLUME_THRESHOLD CONFIG) = false)
  /\ ((v =? VOLUME_THRESHOLD CONFIG)%float = true
     -> current_image a' = Some image_low_orig).
Proof.
  intros a'. unfold a'. rewrite current_image_update.
  assert (Hb : forall b : bool,
             (Some (if b then image_high_orig else image_low_orig)
                = Some image_high_orig <-> b = true)
             /\ (Some (if b then image_high_orig else image_low_orig)
                = Some image_low_orig <-> b = false)).
  { intros [|]; repeat split; intros; congruence. }
  unfold new_image.
  destruct (Hb (py_gt v (VOLUME_THRESHOLD CONFIG))) as [H1 H2].
  repeat split; try apply H1; try apply H2.
  intros E. apply float_eqb_not_gt in E. rewrite E. reflexivity.
Qed.

(** C6. When two consecutive samples map to the same image (in particular
    when the same sample comes twice), the second delivery changes nothing
    at all: the current image stays and nothing is painted again, so the
    pair paints at most once. *)
Theorem update_image_repeat (CONFIG : Config) (v1 v2 : float) (a : App) :
  new_image CONFIG v1 = new_image CONFIG v2 ->
  update_image CONFIG v2 (update_image CONFIG v1 a) = update_image CONFIG v1 a
  /\ (List.length (painted (update_image CONFIG v2 (update_image CONFIG v1 a)))
      <= S (List.length (painted a)))%nat.
Proof.
  intros E.
  assert (Hsame : update_image CONFIG v2 (update_image CONFIG v1 a)
                  = update_image CONFIG v1 a).
  { apply update_image_same. rewrite current_image_update. congruence. }
  split; [exact Hsame|].
  rewrite Hsame.
  destruct (painted_update CONFIG v1 a) as [-> | ->]; simpl; lia.
Qed.

Lemma update_image_repeat_witness :
  update_image DEFAULT_CONFIG 0.9 (update_image DEFAULT_CONFIG 0.9 App_fields)
    = update_image DEFAULT_CONFIG 0.9 App_fields
  /\ (List.length (painted (update_image DEFAULT_CONFIG 0.9
                         (update_image DEFAULT_CONFIG 0.9 App_fields)))
      <= S (List.length (painted App_fields)))%nat.
Proof.
  apply (update_image_repeat DEFAULT_CONFIG 0.9 0.9 App_fields). reflexivity.
Defined.

(** ** The view: construction *)

(** C9. When the high-volume or the low-volume image file does not exist,
    the constructor prints its diagnostic and leaves through
    [sys.exit(1)]; nothing has been loaded and the monitor thread has not
    been started. *)
Theorem missing_image_exits (CONFIG : Config) (path_exists : string -> bool) :
  path_exists (IMAGE_HIGH_VOLUME CONFIG) = false
  \/ path_exists (IMAGE_LOW_VOLUME CONFIG) = false ->
  exists out,
    App_init CONFIG path_exists = SystemExit 1 out
    /\ out = [Stdout "Error: Image files not found."]
    /\ (forall path, ~ In (LoadPixmap path) out)
    /\ ~ In ThreadStart out.
Proof.
  intros H. exists [Stdout "Error: Image files not found."].
  split; [|split; [reflexivity|split]].
  - unfold App_init.
    destruct H as [-> | ->]; simpl; [reflexivity|].
    rewrite orb_true_r. reflexivity.
  - intros path [E|[]]. discriminate E.
  - intros [E|[]]. discriminate E.
Qed.

Lemma missing_image_exits_witness :
  exists out,
    App_init DEFAULT_CONFIG (fun p => String.eqb p "640px-Neurofumo.png")
      = SystemExit 1 out
    /\ out = [Stdout "Error: Image files not found."]
    /\ (forall path, ~ In (LoadPixmap path) out)
    /\ ~ In ThreadStart out.
Proof.
  apply (missing_image_exits DEFAULT_CONFIG
           (fun p => String.eqb p "640px-Neurofumo.png")).
  right. reflexivity.
Defined.

Lemma App_init_app (CONFIG : Config) (path_exists : string -> bool) (s : System) :
  App_init CONFIG path_exists = Constructed s -> app s = App_constructed CONFIG.
Proof.
  unfold App_init.
  destruct (negb (path_exists (IMAGE_HIGH_VOLUME CONFIG))
            || negb (path_exists (IMAGE_LOW_VOLUME CONFIG)))%bool;
    [discriminate|].
  intros H. injection H as <-. reflexivity.
Qed.

Lemma App_init_booted : App_init DEFAULT_CONFIG every_path = Constructed booted.
Proof. reflexivity. Qed.

(** C10. With both image files present and a threshold that is not
    negative, the constructor delivers the sample 0.0 to the view itself
    before the monitor has called back: no image was current, so the swap
    fires and the Low image is painted once, at scale 1.0. *)
Theorem constructor_shows_low (CONFIG : Config) (path_exists : string -> bool) :
  path_exists (IMAGE_HIGH_VOLUME CONFIG) = true ->
  path_exists (IMAGE_LOW_VOLUME CONFIG) = true ->
  (0 <=? VOLUME_THRESHOLD CONFIG)%float = true ->
  exists s,
    App_init CONFIG path_exists = Constructed s
    /\ callbacks (log s) = []
    /\ app s = update_image CONFIG 0.0%float App_fields
    /\ current_image App_fields = None
    /\ current_image (app s) = Some image_low_orig
    /\ painted (app s) = [(image_low_orig, 1.0%float)]
    /\ displayed (app s) = Some (image_low_orig, 1.0%float)
    /\ scale (app s) = 1.0%float
    /\ target_scale (app s) = 1.0%float.
Proof.
  intros Hh Hl Hthr. apply float_leb_not_gt in Hthr.
  unfold App_init. rewrite Hh, Hl. simpl.
  eexists. split; [reflexivity|]. simpl.
  unfold update_image, new_image. rewrite Hthr. simpl.
  repeat split; reflexivity.
Qed.

Lemma constructor_shows_low_witness :
  exists s,
    App_init DEFAULT_CONFIG every_path = Constructed s
    /\ callbacks (log s) = []
    /\ app s = update_image DEFAULT_CONFIG 0.0%float App_fields
    /\ current_image App_fields = None
    /\ current_image (app s) = Some image_low_orig
    /\ painted (app s) = [(image_low_orig, 1.0%float)]
    /\ displayed (app s) = Some (image_low_orig, 1.0%float)
    /\ scale (app s) = 1.0%float
    /\ target_scale (app s) = 1.0%float.
Proof.
  apply (constructor_shows_low DEFAULT_CONFIG every_path); reflexivity.
Defined.

(** ** The view: the resize animation *)

Lemma scale_resize_image (a : App) : scale (resize_image a) = scale a.
Proof. unfold resize_image. destruct (current_image a); reflexivity. Qed.

Lemma target_resize_image (a : App) :
  target_scale (resize_image a) = target_scale a.
Proof. unfold resize_image. destruct (current_image a); reflexivity. Qed.

Lemma scale_animate_resize (a : App) :
  scale (animate_resize a) = next_scale (target_scale a) (scale a).
Proof.
  unfold animate_resize, next_scale.
  destruct (py_gt (abs (target_scale a - scale a)) 0.001); [|reflexivity].
  rewrite scale_resize_image. reflexivity.
Qed.

Lemma target_animate_resize (a : App) :
  target_scale (animate_resize a) = target_scale a.
Proof.
  unfold animate_resize.
  destruct (py_gt (abs (target_scale a - scale a)) 0.001); [|reflexivity].
  rewrite target_resize_image. reflexivity.
Qed.

Lemma target_ticks (n : nat) (a : App) :
  target_scale (ticks n a) = target_scale a.
Proof.
  revert a. induction n as [|n IH]; intros a; simpl; [reflexivity|].
  rewrite IH. apply target_animate_resize.
Qed.

Lemma scale_ticks (n : nat) (a : App) :
  scale (ticks n a) = scale_after n (target_scale a) (scale a).
Proof.
  revert a. induction n as [|n IH]; intros a; simpl; [reflexivity|].
  rewrite IH, target_animate_resize, scale_animate_resize. reflexivity.
Qed.

Lemma ticks_add (n m : nat) (a : App) :
  ticks (n + m) a = ticks m (ticks n a).
Proof.
  revert a. induction n as [|n IH]; intros a; simpl; [reflexivity|apply IH].
Qed.

Lemma ticks_settled (n : nat) (a : App) :
  py_gt (abs (target_scale a - scale a)) 0.001 = false -> ticks n a = a.
Proof.
  intros H. induction n as [|n IH]; simpl; [reflexivity|].
  unfold animate_resize. rewrite H. exact IH.
Qed.

(** C4. From scale 1.0 with target 1.5, each of the first 25 timeouts
    finds the gap above 0.001, adds the step 0.02 (the target is above the
    scale) and rounds to 4 decimals, which lands on the next hundredth
    1.02, 1.04, ... and strictly shrinks the gap; after the 25th the gap is
    at most 0.001 and every later timeout leaves the view as it is. *)
Theorem animate_resize_converges (a : App) :
  scale a = 1.0%float -> target_scale a = 1.5%float ->
  (forall k, (k < 25)%nat ->
     let s := scale (ticks k a) in
     let s' := scale (ticks (S k) a) in
     (0.001 <? abs (1.5 - s))%float = true
     /\ s' = py_round (s + 0.02)%float 4
     /\ s' = hundredths (102 + 2 * k)
     /\ (abs (1.5 - s') <? abs (1.5 - s))%float = true)
  /\ (abs (1.5 - scale (ticks 25 a)) <=? 0.001)%float = true
  /\ (forall n, ticks (25 + n) a = ticks 25 a).
Proof.
  intros Hs Ht. split; [|split].
  - intros k Hk. cbv zeta. rewrite !scale_ticks, Hs, Ht. revert Hk.
    do 25 (destruct k as [|k];
           [intros _; vm_compute; repeat split; reflexivity|]).
    intros Hk. lia.
  - rewrite scale_ticks, Hs, Ht. vm_compute. reflexivity.
  - intros n. rewrite ticks_add. apply ticks_settled.
    rewrite target_ticks, scale_ticks, Hs, Ht. vm_compute. reflexivity.
Qed.

Lemma animate_resize_converges_witness :
  (forall k, (k < 25)%nat ->
     let s := scale (ticks k (set_target_scale 1.5 (App_constructed DEFAULT_CONFIG))) in
     let s' := scale (ticks (S k) (set_target_scale 1.5 (App_constructed DEFAULT_CONFIG))) in
     (0.001 <? abs (1.5 - s))%float = true
     /\ s' = py_round (s + 0.02)%float 4
     /\ s' = hundredths (102 + 2 * k)
     /\ (abs (1.5 - s') <? abs (1.5 - s))%float = true)
  /\ (abs (1.5 - scale (ticks 25 (set_target_scale 1.5 (App_constructed DEFAULT_CONFIG))))
        <=? 0.001)%float = true
  /\ (forall n, ticks (25 + n) (set_target_scale 1.5 (App_constructed DEFAULT_CONFIG))
                = ticks 25 (set_target_scale 1.5 (App_constructed DEFAULT_CONFIG))).
Proof.
  apply (animate_resize_converges
           (set_target_scale 1.5 (App_constructed DEFAULT_CONFIG)));
    reflexivity.
Defined.

(** ** The view: the target scale *)

Lemma target_scales_ok : forallb target_ok target_scales = true.
Proof. vm_compute. reflexivity. Qed.

Lemma target_ok_In (t : float) : In t target_scales -> target_ok t = true.
Proof.
  intros H. pose proof target_scales_ok as A.
  rewrite forallb_forall in A. apply A. exact H.
Qed.

Lemma target_update_image (CONFIG : Config) (v : float) (a : App) :
  target_scale (update_image CONFIG v a) = target_scale a.
Proof.
  unfold update_image.
  destruct (image_ne (current_image a) (new_image CONFIG v)); [|reflexivity].
  rewrite target_resize_image. reflexivity.
Qed.

(** The target after an event is the old one, its increase or its
    decrease. *)
Lemma target_handle (CONFIG : Config) (a : App) (ev : ui_event) :
  target_scale (handle CONFIG a ev) = target_scale a
  \/ target_scale (handle CONFIG a ev) = py_min 2.0 (target_scale a + 0.1)%float
  \/ target_scale (handle CONFIG a ev) = py_max 0.1 (target_scale a - 0.1)%float.
Proof.
  destruct ev as [delta| | | |v]; simpl.
  - unfold adjust_scale. destruct (0 <? delta); simpl; auto.
  - auto.
  - auto.
  - left. apply target_animate_resize.
  - left. apply target_update_image.
Qed.

Lemma target_handle_In (CONFIG : Config) (a : App) (ev : ui_event) :
  In (target_scale a) target_scales ->
  In (target_scale (handle CONFIG a ev)) target_scales.
Proof.
  intros H. pose proof (target_ok_In _ H) as K. unfold target_ok in K.
  repeat (apply andb_prop in K; destruct K as [K ?]).
  destruct (target_handle CONFIG a ev) as [-> | [-> | ->]];
    auto using float_mem_In.
Qed.

Lemma target_deliver_In (CONFIG : Config) (evs : list ui_event) (a : App) :
  In (target_scale a) target_scales ->
  In (target_scale (deliver CONFIG a evs)) target_scales.
Proof.
  revert a. induction evs as [|ev evs IH]; intros a H; simpl; [exact H|].
  apply IH. apply target_handle_In. exact H.
Qed.

Lemma target_constructed_In (CONFIG : Config) :
  In (target_scale (App_constructed CONFIG)) target_scales.
Proof.
  unfold App_constructed. rewrite target_update_image.
  apply float_mem_In. vm_compute. reflexivity.
Qed.

Lemma move_table : forallb move_ok target_scales = true.
Proof. vm_compute. reflexivity. Qed.

Lemma move_ok_In (t : float) : In t target_scales -> move_ok t = true.
Proof.
  intros H. pose proof move_table as A.
  rewrite forallb_forall in A. apply A. exact H.
Qed.

(** C5 (as amended). After any sequence of wheel turns, increase keys and
    decrease keys (and of timeouts and samples between them) on the
    constructed view, the target scale is at least 0.1 and at most 2.0.
    One more event changes it by at most 0.1 up to the rounding of the
    binary64 sum: the new target lies between the old one minus 0.1 and
    the old one plus 0.1 as the program computes them, and its exact
    distance from the old one is at most the float 0.10000000000000009. *)
Theorem target_scale_clamped (CONFIG : Config) (evs : list ui_event) (ev : ui_event) :
  let a := deliver CONFIG (App_constructed CONFIG) evs in
  let a' := handle CONFIG a ev in
  ((0.1 <=? target_scale a)%float = true
   /\ (target_scale a <=? 2.0)%float = true)
  /\ ((target_scale a - 0.1 <=? target_scale a')%float = true
      /\ (target_scale a' <=? target_scale a + 0.1)%float = true)
  /\ (Z.abs (scaled (target_scale a') - scaled (target_scale a))
      <= scaled 0.10000000000000009%float)%Z.
Proof.
  intros a a'.
  assert (H : In (target_scale a) target_scales).
  { apply target_deliver_In, target_constructed_In. }
  pose proof (target_ok_In _ H) as K. unfold target_ok in K.
  repeat (apply andb_prop in K; destruct K as [K ?]).
  split; [split; assumption|].
  pose proof (move_ok_In _ H) as M. unfold move_ok in M. cbv zeta beta in M.
  apply andb_prop in M. destruct M as [M Msame].
  apply andb_prop in M. destruct M as [Mup Mdown].
  assert (N : forall t' : float,
             ((target_scale a - 0.1 <=? t')%float
              && (t' <=? target_scale a + 0.1)%float
              && (Z.abs (scaled t' - scaled (target_scale a))
                  <=? scaled 0.10000000000000009%float))%bool = true ->
             ((target_scale a - 0.1 <=? t')%float = true
              /\ (t' <=? target_scale a + 0.1)%float = true)
             /\ (Z.abs (scaled t' - scaled (target_scale a))
                 <= scaled 0.10000000000000009%float)%Z).
  { intros t' B. apply andb_prop in B. destruct B as [B B3].
    apply andb_prop in B. destruct B as [B1 B2].
    apply Z.leb_le in B3. auto. }
  unfold a'.
  destruct (target_handle CONFIG a ev) as [-> | [-> | ->]]; apply N; assumption.
Qed.

(** C5 (as stated) fails at the first increase.  The target goes from 1.0
    to the float nearest to 1.1; the exact difference of the two is
    [450359962737050 * 2^-52], more than the float 0.1, which is
    [7205759403792794 * 2^-56], and more than one tenth; the program's
    own subtraction gives 0.10000000000000009. *)
Lemma first_increase_exceeds_step :
  let a := App_constructed DEFAULT_CONFIG in
  let a' := handle DEFAULT_CONFIG a IncreaseKey in
  Prim2SF (target_scale a) = S754_finite false 4503599627370496 (-52)
  /\ Prim2SF (target_scale a') = S754_finite false 4953959590107546 (-52)
  /\ Prim2SF 0.1%float = S754_finite false 7205759403792794 (-56)
  /\ (7205759403792794 * 2 ^ 52
      < (4953959590107546 - 4503599627370496) * 2 ^ 56)%Z
  /\ (1 * 2 ^ 52 < 10 * (4953959590107546 - 4503599627370496))%Z
  /\ (target_scale a' - target_scale a)%float = 0.10000000000000009%float
  /\ (abs (target_scale a' - target_scale a) <=? 0.1)%float = false
  /\ ~ (Z.abs (scaled (target_scale a') - scaled (target_scale a))
        <= scaled 0.1%float)%Z.
Proof.
  cbv zeta.
  split; [vm_compute; reflexivity|]. split; [vm_compute; reflexivity|].
  split; [vm_compute; reflexivity|]. split; [vm_compute; reflexivity|].
  split; [vm_compute; reflexivity|]. split; [vm_compute; reflexivity|].
  split; [vm_compute; reflexivity|].
  intros H. apply Z.leb_le in H. vm_compute in H. discriminate H.
Qed.

(** Ten increases from the constructed view reach the upper bound and an
    eleventh stays there; ten decreases reach the lower bound and an
    eleventh stays there. *)
Example target_scale_saturates :
  target_scale (deliver DEFAULT_CONFIG (App_constructed DEFAULT_CONFIG)
                  (repeat IncreaseKey 10)) = 2.0%float
  /\ target_scale (deliver DEFAULT_CONFIG (App_constructed DEFAULT_CONFIG)
                     (repeat (Wheel 120) 11)) = 2.0%float
  /\ target_scale (deliver DEFAULT_CONFIG (App_constructed DEFAULT_CONFIG)
                     (repeat DecreaseKey 10)) = 0.1%float
  /\ target_scale (deliver DEFAULT_CONFIG (App_constructed DEFAULT_CONFIG)
                     (repeat (Wheel (-120)) 11)) = 0.1%float.
Proof. vm_compute. repeat split; reflexivity. Qed.

(** ** The monitor thread *)

Section Monitor.

Variable CONFIG : Config.
Variable GetAllSessions : Z -> list session.
Variable GetPeakValue : meter -> Z -> reading.

Local Open Scope list_scope.

Local Abbreviation run_iteration := (run_iteration CONFIG GetAllSessions GetPeakValue).
Local Abbreviation step := (step CONFIG GetAllSessions GetPeakValue).
Local Abbreviation exec := (exec CONFIG GetAllSessions GetPeakValue).
Local Abbreviation is_target := (is_target CONFIG).
Local Abbreviation find_target := (find_target CONFIG).




Lemma callbacks_app (l1 l2 : list effect) :
  callbacks (l1 ++ l2) = callbacks l1 ++ callbacks l2.
Proof.
  induction l1 as [|e l1 IH]; simpl; [reflexivity|].
  destruct e; simpl; rewrite IH; reflexivity.
Qed.

Lemma step_work (s : System) :
  wake s <= now s -> state s <> Stopped ->
  step s Work = Some (run_iteration s).
Proof.
  intros Hw Hs. simpl.
  apply Z.leb_le in Hw. rewrite Hw.
  destruct (state s); try reflexivity. congruence.
Qed.

(** One poll of the inner loop while the flag is set. *)
Lemma attached_iteration (s : System) (m : meter) :
  state s = Attached m -> running s = true ->
  let s' := run_iteration s in
  state s' = Attached m /\ running s' = true
  /\ now s' = now s /\ wake s' = now s + 100
  /\ match GetPeakValue m (now s) with
     | Peak v =>
         log s' = log s ++ [Callback v]
         /\ app s' = update_image CONFIG v (app s)
     | Raise exc =>
         log s' = log s ++ [Stdout ("Error fetching volume: " ++ exc);
                            Callback 0.0%float]
         /\ app s' = update_image CONFIG 0.0%float (app s)
     end.
Proof.
  intros Hs Hr. unfold run_iteration. rewrite Hs, Hr.
  destruct (GetPeakValue m (now s)) as [v|exc]; simpl;
    rewrite ?Hs, ?Hr, <- ?app_assoc; repeat split; reflexivity.
Qed.

(** A step that does not clear the flag keeps an attached thread
    attached. *)
Lemma attached_step (s s' : System) (m : meter) (a : action) :
  state s = Attached m -> running s = true ->
  clears_flag a = false -> step s a = Some s' ->
  state s' = Attached m /\ running s' = true.
Proof.
  intros Hs Hr Ha Hstep. destruct a as [|d| |ev|]; simpl in *; try discriminate.
  - destruct ((wake s <=? now s) && negb (is_stopped (state s)))%bool;
      [|discriminate].
    inversion Hstep. subst s'.
    destruct (attached_iteration s m Hs Hr) as [A [B _]]. auto.
  - destruct (0 <=? d); [|discriminate]. inversion Hstep. subst s'. auto.
  - inversion Hstep. subst s'. auto.
Qed.

Lemma attached_exec (acts : list action) (s s' : System) (m : meter) :
  state s = Attached m -> running s = true ->
  forallb (fun a => negb (clears_flag a)) acts = true ->
  exec s acts = Some s' ->
  state s' = Attached m /\ running s' = true.
Proof.
  revert s. induction acts as [|a acts IH]; intros s Hs Hr Hacts Hexec.
  - inversion Hexec. subst s'. auto.
  - simpl in Hacts. apply andb_prop in Hacts. destruct Hacts as [Ha Hacts].
    apply negb_true_iff in Ha.
    simpl in Hexec. destruct (step s a) as [s1|] eqn:E; [|discriminate].
    destruct (attached_step s s1 m a Hs Hr Ha E) as [Hs1 Hr1].
    apply (IH s1 Hs1 Hr1 Hacts Hexec).
Qed.

(** [n] polls go through, 100 ms apart, with one callback each. *)
Lemma attached_polls (n : nat) (s : System) (m : meter) :
  state s = Attached m -> running s = true -> wake s <= now s ->
  exists s',
    exec s (polls n) = Some s'
    /\ state s' = Attached m /\ running s' = true
    /\ now s' = now s + 100 * Z.of_nat n
    /\ wake s' <= now s'
    /\ List.length (callbacks (log s'))
       = (List.length (callbacks (log s)) + n)%nat
    /\ ((forall t, now s <= t -> exists exc, GetPeakValue m t = Raise exc) ->
        callbacks (log s') = callbacks (log s) ++ repeat 0.0%float n).
Proof.
  revert s. induction n as [|n IH]; intros s Hs Hr Hw.
  - exists s. simpl. rewrite app_nil_r, Nat.add_0_r.
    repeat split; auto; lia.
  - destruct (attached_iteration s m Hs Hr) as [A [B [C [D E]]]].
    set (s1 := run_iteration s) in *.
    set (s2 := set_now (now s1 + 100) s1).
    destruct (IH s2) as [s' [X1 [X2 [X3 [X4 [X5 [X6 X7]]]]]]];
      try (simpl; assumption).
    { simpl. lia. }
    exists s'.
    assert (Hstep : exec s (polls (S n)) = exec s2 (polls n)).
    { cbn [polls exec]. rewrite step_work; [|exact Hw|congruence].
      reflexivity. }
    rewrite Hstep. split; [exact X1|].
    split; [exact X2|]. split; [exact X3|].
    split; [rewrite X4; change (now s2) with (now s1 + 100); lia|].
    split; [exact X5|].
    destruct (GetPeakValue m (now s)) as [v|exc] eqn:R; destruct E as [E1 E2].
    + split.
      * rewrite X6. simpl. fold s1. rewrite E1, callbacks_app, length_app.
        simpl. lia.
      * intros F. destruct (F (now s) (Z.le_refl _)) as [exc K]. congruence.
    + split.
      * rewrite X6. simpl. fold s1. rewrite E1, callbacks_app, length_app.
        simpl. lia.
      * intros F. rewrite X7.
        -- simpl. fold s1. rewrite E1, callbacks_app. simpl.
           rewrite <- app_assoc. reflexivity.
        -- intros t Ht. apply F. simpl in Ht. lia.
Qed.

End Monitor.

(** ** Lower-casing and comparison without regard to case *)

Lemma In_all_ascii (c : ascii) : In c all_ascii.
Proof.
  unfold all_ascii. rewrite <- (ascii_nat_embedding c).
  apply in_map. apply in_seq. pose proof (nat_ascii_bounded c). lia.
Qed.

Lemma lower_table :
  forallb (fun c =>
     forallb (fun d =>
        Bool.eqb (Ascii.eqb (lower_ascii c) (lower_ascii d)) (same_letter c d))
       all_ascii) all_ascii = true.
Proof. vm_compute. reflexivity. Qed.

(** Two characters have the same lower case exactly when they are the same
    letter. *)
Lemma lower_ascii_same_letter (c d : ascii) :
  lower_ascii c = lower_ascii d <-> same_letter c d = true.
Proof.
  pose proof lower_table as T. rewrite forallb_forall in T.
  specialize (T c (In_all_ascii c)). rewrite forallb_forall in T.
  specialize (T d (In_all_ascii d)). apply Bool.eqb_prop in T.
  rewrite <- T. symmetry. apply Ascii.eqb_eq.
Qed.

(** Two names have the same lower case exactly when they are equal without
    regard to case. *)
Lemma lower_caseless (a b : string) :
  lower a = lower b <-> caseless_eq a b = true.
Proof.
  revert b. induction a as [|c a IH]; intros [|d b]; simpl.
  - split; reflexivity.
  - split; discriminate.
  - split; discriminate.
  - rewrite andb_true_iff, <- IH, <- lower_ascii_same_letter.
    split.
    + intros E. injection E as E1 E2. auto.
    + intros [E1 E2]. rewrite E1, E2. reflexivity.
Qed.

Example lower_target_name :
  lower "EDCoPilot.exe" = "edcopilot.exe"
  /\ lower "EDCOPILOT.EXE" = "edcopilot.exe"
  /\ caseless_eq "EDCOPILOT.EXE" "EDCoPilot.exe" = true
  /\ caseless_eq "EDCoPilot.exe.bak" "EDCoPilot.exe" = false
  /\ caseless_eq "EDCoPilot_exe" "EDCoPilot.exe" = false.
Proof. repeat split; reflexivity. Qed.

Lemma lower_idempotent (a : string) : lower (lower a) = lower a.
Proof.
  assert (Q : forallb (fun x => same_letter (lower_ascii x) x) all_ascii = true)
    by (vm_compute; reflexivity).
  rewrite forallb_forall in Q.
  induction a as [|c a IH]; simpl; [reflexivity|]. rewrite IH. f_equal.
  apply lower_ascii_same_letter. apply Q. apply In_all_ascii.
Qed.

(** On an ASCII name lower-casing keeps the length, gives an ASCII name
    again, and gives a name equal to the first without regard to case. *)
Lemma lower_ascii_only (a : string) :
  ascii_only a = true ->
  String.length (lower a) = String.length a
  /\ ascii_only (lower a) = true
  /\ caseless_eq (lower a) a = true.
Proof.
  assert (Q : forallb (fun x => Bool.eqb (Nat.ltb (nat_of_ascii (lower_ascii x)) 128)
                                 (Nat.ltb (nat_of_ascii x) 128))
                all_ascii = true) by (vm_compute; reflexivity).
  rewrite forallb_forall in Q.
  intros H. split; [|split].
  - clear H. induction a as [|c a IH]; simpl; [reflexivity|].
    rewrite IH. reflexivity.
  - induction a as [|c a IH]; simpl; [reflexivity|].
    simpl in H. apply andb_prop in H. destruct H as [H1 H2].
    pose proof (Q c (In_all_ascii c)) as E. apply Bool.eqb_prop in E.
    rewrite E, H1, (IH H2). reflexivity.
  - apply lower_caseless. apply lower_idempotent.
Qed.

Section MonitorClaims.

Variable CONFIG : Config.
Variable GetAllSessions : Z -> list session.
Variable GetPeakValue : meter -> Z -> reading.

Local Open Scope list_scope.

Local Abbreviation run_iteration := (run_iteration CONFIG GetAllSessions GetPeakValue).
Local Abbreviation step := (step CONFIG GetAllSessions GetPeakValue).
Local Abbreviation exec := (exec CONFIG GetAllSessions GetPeakValue).
Local Abbreviation is_target := (is_target CONFIG).
Local Abbreviation find_target := (find_target CONFIG).


(** C3. While the thread is attached and the flag is set: a failed read
    prints the error, calls back with 0.0 and sleeps the same 100 ms as a
    good read; whatever the reads return, any number of polls goes
    through 100 ms apart, and when every read fails each poll calls back
    with 0.0; and no sequence of steps that leaves the flag alone takes
    the thread out of the attached state. *)
Theorem attached_failures_keep_polling (s : System) (m : meter) :
  state s = Attached m -> running s = true -> wake s <= now s ->
  (forall exc, GetPeakValue m (now s) = Raise exc ->
     exists s',
       step s Work = Some s'
       /\ state s' = Attached m
       /\ log s' = log s ++ [Stdout ("Error fetching volume: " ++ exc);
                              Callback 0.0%float]
       /\ app s' = update_image CONFIG 0.0%float (app s)
       /\ now s' = now s /\ wake s' = now s + 100)
  /\ (forall n, exists s',
        exec s (polls n) = Some s'
        /\ state s' = Attached m
        /\ now s' = now s + 100 * Z.of_nat n
        /\ ((forall t, now s <= t -> exists exc, GetPeakValue m t = Raise exc) ->
            callbacks (log s') = callbacks (log s) ++ repeat 0.0%float n))
  /\ (forall acts s',
        forallb (fun a => negb (clears_flag a)) acts = true ->
        exec s acts = Some s' ->
        state s' = Attached m /\ running s' = true).
Proof.
  intros Hs Hr Hw. split; [|split].
  - intros exc Hexc. exists (run_iteration s).
    split; [apply step_work; [exact Hw|congruence]|].
    destruct (attached_iteration CONFIG GetAllSessions GetPeakValue s m Hs Hr)
      as [A [_ [C [D E]]]].
    rewrite Hexc in E. destruct E as [E1 E2]. auto.
  - intros n.
    destruct (attached_polls CONFIG GetAllSessions GetPeakValue n s m Hs Hr Hw)
      as [s' [X1 [X2 [_ [X4 [_ [_ X7]]]]]]].
    exists s'. auto.
  - intros acts s' Hacts Hexec.
    apply (attached_exec CONFIG GetAllSessions GetPeakValue acts s s' m);
      assumption.
Qed.

End MonitorClaims.


Lemma attached_failures_keep_polling_witness :
  exists s',
    exec DEFAULT_CONFIG one_session dead_meter attached_example (polls 3) = Some s'
    /\ state s' = Attached 7%nat
    /\ now s' = 300
    /\ callbacks (log s') = [0.0; 0.0; 0.0]%float.
Proof.
  destruct (attached_failures_keep_polling DEFAULT_CONFIG one_session dead_meter
              attached_example 7%nat eq_refl eq_refl (Z.le_refl 0))
    as [_ [H _]].
  destruct (H 3%nat) as [s' [A [B [C D]]]].
  exists s'. split; [exact A|]. split; [exact B|]. split; [exact C|].
  apply D. intros t _. exists "session ended". reflexivity.
Defined.

(** ** Stopping the monitor *)

Section Shutdown.

Variable CONFIG : Config.
Variable GetAllSessions : Z -> list session.
Variable GetPeakValue : meter -> Z -> reading.

Local Open Scope list_scope.

Local Abbreviation run_iteration := (run_iteration CONFIG GetAllSessions GetPeakValue).
Local Abbreviation join_loop := (join_loop CONFIG GetAllSessions GetPeakValue).
Local Abbreviation join := (join CONFIG GetAllSessions GetPeakValue).
Local Abbreviation closeEvent := (closeEvent CONFIG GetAllSessions GetPeakValue).
Local Abbreviation step := (step CONFIG GetAllSessions GetPeakValue).
Local Abbreviation exec := (exec CONFIG GetAllSessions GetPeakValue).

Lemma now_run_iteration (s : System) : now (run_iteration s) = now s.
Proof.
  unfold run_iteration.
  destruct (state s) as [|m|]; destruct (running s); try reflexivity.
  - destruct (find_target CONFIG (GetAllSessions (now s))); reflexivity.
  - destruct (GetPeakValue m (now s)); reflexivity.
Qed.

(** [join] returns between the time of the call and the deadline. *)
Lemma now_join_loop (fuel : nat) (deadline : Z) (s : System) :
  now s <= deadline ->
  now s <= now (join_loop fuel deadline s) <= deadline.
Proof.
  revert s. induction fuel as [|k IH]; intros s H.
  - simpl. destruct (state s); simpl; try lia;
      destruct (deadline <? Z.max (now s) (wake s)); simpl; lia.
  - simpl. destruct (state s) as [|m|]; simpl; try lia.
    + destruct (deadline <? Z.max (now s) (wake s)) eqn:E; simpl; [lia|].
      apply Z.ltb_ge in E.
      specialize (IH (run_iteration (set_now (Z.max (now s) (wake s)) s))).
      rewrite now_run_iteration in IH. simpl in IH. lia.
    + destruct (deadline <? Z.max (now s) (wake s)) eqn:E; simpl; [lia|].
      apply Z.ltb_ge in E.
      specialize (IH (run_iteration (set_now (Z.max (now s) (wake s)) s))).
      rewrite now_run_iteration in IH. simpl in IH. lia.
Qed.

(** [join] on a thread that cannot run before the deadline only lets the
    time pass; otherwise it returns at or after the thread's wake-up. *)
Lemma join_loop_asleep (fuel : nat) (deadline : Z) (s : System) :
  state s <> Stopped -> now s < wake s -> now s <= deadline ->
  (deadline < wake s /\ join_loop fuel deadline s = set_now deadline s)
  \/ wake s <= now (join_loop fuel deadline s).
Proof.
  intros Hs Hlt Hd.
  assert (Hmax : Z.max (now s) (wake s) = wake s) by lia.
  destruct fuel as [|k]; simpl.
  - destruct (state s) as [|m|]; try congruence; rewrite Hmax;
      (destruct (deadline <? wake s) eqn:E;
       [apply Z.ltb_lt in E; left; auto
       |apply Z.ltb_ge in E; right; simpl; lia]).
  - destruct (state s) as [|m|]; try congruence; rewrite Hmax;
      (destruct (deadline <? wake s) eqn:E;
       [apply Z.ltb_lt in E; left; auto|]);
      apply Z.ltb_ge in E; right;
      pose proof (now_join_loop k deadline
                    (run_iteration (set_now (wake s) s))) as B;
      rewrite now_run_iteration in B; simpl in B; lia.
Qed.

Lemma now_closeEvent (s : System) :
  now s <= now (closeEvent s) <= now s + 2000.
Proof.
  unfold closeEvent, join. cbn [now accept stop print emit].
  pose proof (now_join_loop (Z.to_nat (2 * (2000 / 100) + 3)) (now s + 2000)
                (stop (print "Shutting down application..." s))) as B.
  cbn [now accept stop print emit] in B. lia.
Qed.

Lemma now_step (s s' : System) (a : action) :
  step s a = Some s' -> now s <= now s'.
Proof.
  destruct a as [|d| |ev|]; simpl; intros H.
  - destruct ((wake s <=? now s) && negb (is_stopped (state s)))%bool;
      [|discriminate].
    inversion H. rewrite now_run_iteration. lia.
  - destruct (0 <=? d) eqn:E; [|discriminate]. apply Z.leb_le in E.
    inversion H. simpl. lia.
  - inversion H. simpl. lia.
  - inversion H. simpl. lia.
  - inversion H. pose proof (now_closeEvent s). lia.
Qed.

Lemma now_exec (acts : list action) (s s' : System) :
  exec s acts = Some s' -> now s <= now s'.
Proof.
  revert s. induction acts as [|a acts IH]; intros s H; simpl in H.
  - inversion H. lia.
  - destruct (step s a) as [s1|] eqn:E; [|discriminate].
    apply now_step in E. apply IH in H. lia.
Qed.

(** While its sleep lasts, nothing moves the thread: not the flag, not the
    view's events, not a close request. *)
Lemma asleep_step (s s' : System) (a : action) :
  state s <> Stopped -> now s < wake s ->
  step s a = Some s' -> now s' < wake s ->
  state s' = state s /\ wake s' = wake s.
Proof.
  intros Hs Hlt Hstep Hlt'. destruct a as [|d| |ev|]; simpl in Hstep.
  - assert (E : (wake s <=? now s) = false) by (apply Z.leb_gt; lia).
    rewrite E in Hstep. discriminate.
  - destruct (0 <=? d); [|discriminate]. inversion Hstep. auto.
  - inversion Hstep. auto.
  - inversion Hstep. auto.
  - injection Hstep as <-.
    unfold closeEvent, join in *.
    cbn [now state wake accept stop print emit] in *.
    destruct (join_loop_asleep (Z.to_nat (2 * (2000 / 100) + 3)) (now s + 2000)
                (stop (print "Shutting down application..." s)))
      as [[_ J]|J]; cbn [now state wake stop print emit] in *;
      try assumption; try lia.
    rewrite J. auto.
Qed.

Lemma asleep_exec (acts : list action) (s s' : System) :
  state s <> Stopped -> now s < wake s ->
  exec s acts = Some s' -> now s' < wake s ->
  state s' = state s /\ wake s' = wake s.
Proof.
  revert s. induction acts as [|a acts IH]; intros s Hs Hlt H Hlt'; simpl in H.
  - inversion H. auto.
  - destruct (step s a) as [s1|] eqn:E; [|discriminate].
    pose proof (now_exec acts s1 s' H) as M.
    destruct (asleep_step s s1 a Hs Hlt E) as [A B]; [lia|].
    destruct (IH s1) as [A' B']; try congruence; try lia.
    split; congruence.
Qed.

(** C2 (as amended). [monitor.stop()] does not wake the thread.  When it
    is called [d] ms into the 15 s sleep of a search that found nothing,
    the thread is still searching at every moment before the sleep ends,
    whatever else happens; it leaves [run] at the first loop head after
    the sleep, 15000 ms after the search, without printing or calling back
    again. *)
Theorem stop_waits_for_sleep (s0 : System) (d : Z) :
  state s0 = Searching -> running s0 = true -> wake s0 <= now s0 ->
  find_target CONFIG (GetAllSessions (now s0)) = None ->
  0 <= d < 15000 ->
  exists mid,
    exec s0 [Work; Wait d] = Some mid
    /\ state mid = Searching
    /\ now mid = now s0 + d
    /\ wake mid = now s0 + 15000
    /\ (forall acts s',
          exec (stop mid) acts = Some s' ->
          now s' < now s0 + 15000 ->
          state s' = Searching)
    /\ exists s',
        exec (stop mid) [Wait (15000 - d); Work] = Some s'
        /\ state s' = Stopped
        /\ now s' = now s0 + 15000
        /\ log s' = log mid
        /\ app s' = app mid.
Proof.
  intros Hs Hr Hw Hnone Hd.
  assert (Hrun : run_iteration s0
                 = sleep 15000
                     (callback CONFIG 0.0%float
                        (print ("Error: " ++ TARGET_APP CONFIG
                                  ++ " not found. Retrying in 15 seconds...")
                           (print "Searching for target application..." s0)))).
  { unfold run_iteration. rewrite Hs, Hr, Hnone. reflexivity. }
  set (mid := set_now (now s0 + d) (run_iteration s0)).
  assert (Smid : state mid = Searching).
  { unfold mid. rewrite Hrun. exact Hs. }
  assert (Nmid : now mid = now s0 + d) by reflexivity.
  assert (Wmid : wake mid = now s0 + 15000).
  { unfold mid. rewrite Hrun. reflexivity. }
  exists mid. split.
  { cbn [exec]. rewrite step_work; [|exact Hw|congruence].
    cbn [step].
    assert (Hd0 : (0 <=? d) = true) by (apply Z.leb_le; lia).
    rewrite Hd0, now_run_iteration. reflexivity. }
  split; [exact Smid|]. split; [exact Nmid|]. split; [exact Wmid|].
  split.
  - intros acts s' Hexec Hbefore.
    destruct (asleep_exec acts (stop mid) s') as [A _].
    + change (state mid <> Stopped). congruence.
    + change (now mid < wake mid). lia.
    + exact Hexec.
    + change (now s' < wake mid). lia.
    + rewrite A. exact Smid.
  - set (woken := set_now (now mid + (15000 - d)) (stop mid)).
    exists (set_state Stopped woken).
    assert (H1 : (0 <=? 15000 - d) = true) by (apply Z.leb_le; lia).
    assert (H2 : step woken Work = Some (run_iteration woken)).
    { apply step_work.
      - change (wake mid <= now mid + (15000 - d)). lia.
      - change (state mid <> Stopped). congruence. }
    assert (H3 : run_iteration woken = set_state Stopped woken).
    { unfold run_iteration.
      change (state woken) with (state mid). rewrite Smid. reflexivity. }
    split.
    { cbn [exec step]. rewrite H1. fold woken.
      change (match step woken Work with
              | Some s' => Some s'
              | None => None
              end = Some (set_state Stopped woken)).
      rewrite H2, H3. reflexivity. }
    split; [reflexivity|].
    split; [change (now mid + (15000 - d) = now s0 + 15000); lia|].
    split; reflexivity.
Qed.

End Shutdown.

Lemma stop_waits_for_sleep_witness :
  exists mid,
    exec DEFAULT_CONFIG no_sessions dead_meter booted [Work; Wait 1000] = Some mid
    /\ state mid = Searching
    /\ exists s',
        exec DEFAULT_CONFIG no_sessions dead_meter (stop mid) [Wait 14000; Work]
          = Some s'
        /\ state s' = Stopped
        /\ now s' = 15000.
Proof.
  destruct (stop_waits_for_sleep DEFAULT_CONFIG no_sessions dead_meter booted 1000
              eq_refl eq_refl (Z.le_refl 0) eq_refl)
    as [mid [A [B [_ [_ [_ [s' [C [D [E _]]]]]]]]]].
  - lia.
  - exists mid. split; [exact A|]. split; [exact B|].
    exists s'. split; [exact C|]. split; [exact D|exact E].
Defined.

(** C2 (as stated) fails.  With no audio session, the thread is one second
    into its 15 s sleep when [monitor.stop()] is called; whatever happens
    next, it has not left [run] 500 ms later. *)
Lemma stop_does_not_interrupt_sleep :
  exec DEFAULT_CONFIG no_sessions dead_meter booted [Work; Wait 1000]
    = Some mid_wait
  /\ state mid_wait = Searching
  /\ now mid_wait < wake mid_wait
  /\ ~ stops_within DEFAULT_CONFIG no_sessions dead_meter mid_wait 500.
Proof.
  split; [vm_compute; reflexivity|].
  split; [reflexivity|]. split; [reflexivity|].
  intros [acts [s' [Hexec [Hstopped Hnow]]]].
  destruct (asleep_exec DEFAULT_CONFIG no_sessions dead_meter acts
              (stop mid_wait) s') as [A _].
  - simpl. discriminate.
  - reflexivity.
  - exact Hexec.
  - change (now s' < 15000). change (now mid_wait) with 1000 in Hnow. lia.
  - rewrite Hstopped in A. discriminate A.
Qed.

(** ** Closing the window *)

Section Close.

Variable CONFIG : Config.
Variable GetAllSessions : Z -> list session.
Variable GetPeakValue : meter -> Z -> reading.

Local Open Scope list_scope.

Local Abbreviation run_iteration := (run_iteration CONFIG GetAllSessions GetPeakValue).
Local Abbreviation join_loop := (join_loop CONFIG GetAllSessions GetPeakValue).
Local Abbreviation join := (join CONFIG GetAllSessions GetPeakValue).
Local Abbreviation closeEvent := (closeEvent CONFIG GetAllSessions GetPeakValue).

Lemma join_loop_S (k : nat) (deadline : Z) (s : System) :
  join_loop (S k) deadline s
  = match state s with
    | Stopped => s
    | _ =>
        if deadline <? Z.max (now s) (wake s) then set_now deadline s
        else join_loop k deadline
               (run_iteration (set_now (Z.max (now s) (wake s)) s))
    end.
Proof. reflexivity. Qed.

Lemma join_loop_stopped (fuel : nat) (deadline : Z) (s : System) :
  state s = Stopped -> join_loop fuel deadline s = s.
Proof. intros H. destruct fuel; simpl; rewrite H; reflexivity. Qed.

(** Once the flag is cleared the thread needs at most two loop heads to
    leave [run], so [join] returns at the thread's wake-up when that comes
    before the deadline, and at the deadline otherwise. *)
Lemma join_loop_flag_cleared (k : nat) (deadline : Z) (s : System) :
  running s = false -> state s <> Stopped ->
  join_loop (S (S k)) deadline s
  = if deadline <? Z.max (now s) (wake s) then set_now deadline s
    else set_state Stopped (set_now (Z.max (now s) (wake s)) s).
Proof.
  intros Hr Hs. rewrite join_loop_S.
  destruct (deadline <? Z.max (now s) (wake s)) eqn:E.
  - destruct (state s); congruence.
  - destruct (state s) as [|m|] eqn:Q; [| |congruence].
    + unfold run_iteration. cbn [state running set_now]. rewrite Q, Hr.
      apply join_loop_stopped. reflexivity.
    + unfold run_iteration. cbn [state running set_now]. rewrite Q, Hr.
      rewrite join_loop_S. cbn [state set_state now wake set_now].
      assert (M : Z.max (Z.max (now s) (wake s)) (wake s)
                  = Z.max (now s) (wake s)) by lia.
      rewrite M, E.
      unfold run_iteration. cbn [state running set_now set_state]. rewrite Hr.
      apply join_loop_stopped. reflexivity.
Qed.

Lemma closeEvent_unfold (s : System) :
  closeEvent s
  = accept
      match state s with
      | Stopped => stop (print "Shutting down application..." s)
      | _ =>
          if now s + 2000 <? Z.max (now s) (wake s)
          then set_now (now s + 2000)
                 (stop (print "Shutting down application..." s))
          else set_state Stopped
                 (set_now (Z.max (now s) (wake s))
                    (stop (print "Shutting down application..." s)))
      end.
Proof.
  unfold closeEvent, join.
  change (Z.to_nat (2 * (2000 / 100) + 3)) with 43%nat.
  cbn [now stop print emit].
  destruct (state s) as [|m|] eqn:Q.
  - rewrite join_loop_flag_cleared; [reflexivity|reflexivity|].
    cbn [state stop print emit]. congruence.
  - rewrite join_loop_flag_cleared; [reflexivity|reflexivity|].
    cbn [state stop print emit]. congruence.
  - rewrite join_loop_stopped; [reflexivity|exact Q].
Qed.

(** C8. [stop] clears the [running] flag and does nothing else: no time
    passes and nothing else changes.  [closeEvent] prints, clears the
    flag, joins the thread for at most 2000 ms and then accepts the event
    in every case: when the thread's sleep ends within the 2000 ms the
    join returns at that moment with the thread out of [run]; when it
    does not, the join returns at the deadline with the thread where it
    was, and the event is accepted all the same. *)
Theorem closeEvent_bounded (s : System) :
  stop s = {| app := app s; running := false; state := state s;
              wake := wake s; now := now s; log := log s;
              accepted := accepted s |}
  /\ accepted (closeEvent s) = true
  /\ running (closeEvent s) = false
  /\ log (closeEvent s) = log s ++ [Stdout "Shutting down application..."]
  /\ app (closeEvent s) = app s
  /\ now s <= now (closeEvent s) <= now s + 2000
  /\ (state s = Stopped ->
      state (closeEvent s) = Stopped /\ now (closeEvent s) = now s)
  /\ (state s <> Stopped -> wake s <= now s + 2000 ->
      state (closeEvent s) = Stopped
      /\ now (closeEvent s) = Z.max (now s) (wake s))
  /\ (state s <> Stopped -> now s + 2000 < wake s ->
      state (closeEvent s) = state s
      /\ now (closeEvent s) = now s + 2000).
Proof.
  split; [reflexivity|].
  rewrite closeEvent_unfold.
  destruct (now s + 2000 <? Z.max (now s) (wake s)) eqn:E;
    [apply Z.ltb_lt in E|apply Z.ltb_ge in E];
    destruct (state s) as [|m|] eqn:Q; cbn;
    repeat split; try reflexivity; try congruence; try lia.
Qed.

End Close.

(** A close request one second into the 15 s sleep: the join times out
    after 2000 ms, the thread is still searching, the event is accepted. *)
Example close_with_live_thread :
  let s' := closeEvent DEFAULT_CONFIG no_sessions dead_meter mid_wait in
  accepted s' = true /\ state s' = Searching /\ now s' = 3000
  /\ running s' = false.
Proof. vm_compute. repeat split; reflexivity. Qed.

(** ** The view: what every reachable state satisfies *)

Lemma scale_set_grid :
  scale_set = map (fun k => hundredths (10 + 2 * k)) (seq 0 96).
Proof. vm_compute. reflexivity. Qed.

Lemma grid_table :
  forallb (fun t => forallb (grid_ok t) scale_set) target_scales = true.
Proof. vm_compute. reflexivity. Qed.

Lemma grid_ok_In (t s : float) :
  In t target_scales -> In s scale_set -> grid_ok t s = true.
Proof.
  intros Ht Hs. pose proof grid_table as A.
  rewrite forallb_forall in A. specialize (A t Ht).
  rewrite forallb_forall in A. exact (A s Hs).
Qed.

(** The parts of [grid_ok], one by one. *)
Lemma grid_ok_parts (t s : float) :
  grid_ok t s = true ->
  In (next_scale t s) scale_set
  /\ (0.1 <=? s)%float = true /\ (s <=? 2.0)%float = true
  /\ (rank t s <= 95)%nat
  /\ (py_gt (abs (t - s)) 0.001 = true ->
      (abs (t - next_scale t s) <? abs (t - s))%float = true
      /\ (rank t (next_scale t s) < rank t s)%nat).
Proof.
  unfold grid_ok. intros H.
  repeat (apply andb_prop in H; destruct H as [H ?]).
  split; [apply float_mem_In; assumption|].
  split; [assumption|]. split; [assumption|].
  split; [apply Nat.leb_le; assumption|].
  intros G.
  match goal with K : (if _ then _ else _) = true |- _ => rewrite G in K;
    apply andb_prop in K; destruct K as [K1 K2] end.
  split; [exact K1|apply Nat.ltb_lt; exact K2].
Qed.

Lemma scale_update_image (CONFIG : Config) (v : float) (a : App) :
  scale (update_image CONFIG v a) = scale a.
Proof.
  unfold update_image.
  destruct (image_ne (current_image a) (new_image CONFIG v)); [|reflexivity].
  rewrite scale_resize_image. reflexivity.
Qed.

Lemma scale_after_settled (n : nat) (t s : float) :
  py_gt (abs (t - s)) 0.001 = false -> scale_after n t s = s.
Proof.
  intros H. induction n as [|n IH]; simpl; [reflexivity|].
  unfold next_scale. rewrite H. exact IH.
Qed.

(** A scale of rank at most [n] is settled after [n] timeouts. *)
Lemma settled_by_rank (n : nat) (t : float) :
  In t target_scales ->
  forall s, In s scale_set -> (rank t s <= n)%nat ->
  py_gt (abs (t - scale_after n t s)) 0.001 = false.
Proof.
  intros Ht. induction n as [|n IH]; intros s Hs Hr;
    destruct (py_gt (abs (t - s)) 0.001) eqn:G;
    try (rewrite scale_after_settled; assumption);
    destruct (grid_ok_parts t s (grid_ok_In t s Ht Hs)) as [A [_ [_ [_ B]]]];
    destruct (B G) as [_ C].
  - lia.
  - simpl. apply IH; [exact A|lia].
Qed.

Lemma view_inv_constructed (CONFIG : Config) : view_inv (App_constructed CONFIG).
Proof.
  unfold view_inv, App_constructed. split; [|split].
  - exists (new_image CONFIG 0.0%float). split; reflexivity.
  - rewrite scale_update_image. apply float_mem_In. vm_compute. reflexivity.
  - apply target_constructed_In.
Qed.

Lemma view_inv_set_target (t : float) (a : App) :
  view_inv a -> In t target_scales -> view_inv (set_target_scale t a).
Proof. intros [A [B _]] H. split; [exact A|split; [exact B|exact H]]. Qed.

Lemma view_inv_handle (CONFIG : Config) (a : App) (ev : ui_event) :
  view_inv a -> view_inv (handle CONFIG a ev).
Proof.
  intros I. pose proof I as [[img [Hc Hd]] [Hs Ht]].
  pose proof (target_handle_In CONFIG a ev Ht) as Ht'.
  destruct ev as [delta| | | |v]; simpl in *.
  - unfold adjust_scale in *.
    destruct (0 <? delta); apply view_inv_set_target; assumption.
  - apply view_inv_set_target; assumption.
  - apply view_inv_set_target; assumption.
  - split; [|split; [|exact Ht']].
    + unfold animate_resize.
      destruct (py_gt (abs (target_scale a - scale a)) 0.001).
      * exists img. unfold resize_image, set_scale. simpl. rewrite Hc.
        split; reflexivity.
      * exists img. split; assumption.
    + rewrite scale_animate_resize.
      apply (grid_ok_parts _ _ (grid_ok_In _ _ Ht Hs)).
  - split; [|split; [|exact Ht']].
    + unfold update_image.
      destruct (image_ne (current_image a) (new_image CONFIG v)).
      * exists (new_image CONFIG v). split; reflexivity.
      * exists img. split; assumption.
    + rewrite scale_update_image. exact Hs.
Qed.

(** X4. One sample and one input event give the same view in either order; for
    a timeout the two orders agree on everything but the history of what
    was painted before the latest pixmap. *)
Theorem sample_commutes_with_events (CONFIG : Config) (v : float) (a : App) :
  (forall delta,
     adjust_scale delta (update_image CONFIG v a)
     = update_image CONFIG v (adjust_scale delta a))
  /\ increase_size (update_image CONFIG v a)
     = update_image CONFIG v (increase_size a)
  /\ decrease_size (update_image CONFIG v a)
     = update_image CONFIG v (decrease_size a)
  /\ (let a1 := animate_resize (update_image CONFIG v a) in
      let a2 := update_image CONFIG v (animate_resize a) in
      scale a1 = scale a2 /\ target_scale a1 = target_scale a2
      /\ current_image a1 = current_image a2
      /\ displayed a1 = displayed a2).
Proof.
  split; [|split; [|split]].
  - intros delta. unfold adjust_scale, update_image, resize_image.
    destruct a as [s t c p]. simpl.
    destruct (0 <? delta); simpl;
      destruct (image_ne c (new_image CONFIG v)); reflexivity.
  - unfold increase_size, update_image, resize_image.
    destruct a as [s t c p]. simpl.
    destruct (image_ne c (new_image CONFIG v)); reflexivity.
  - unfold decrease_size, update_image, resize_image.
    destruct a as [s t c p]. simpl.
    destruct (image_ne c (new_image CONFIG v)); reflexivity.
  - cbv zeta. destruct a as [s t c p].
    unfold animate_resize, update_image, resize_image, set_scale,
      set_current_image, displayed.
    destruct (py_gt (abs (t - s)) 0.001) eqn:G;
      destruct c as [[|]|]; destruct (new_image CONFIG v);
      simpl; rewrite ?G; simpl; repeat split; reflexivity.
Qed.

(** ** Dragging the window *)

Lemma wrap_int_sub_r (a b : Z) : wrap_int (a - wrap_int b) = wrap_int (a - b).
Proof.
  unfold wrap_int. f_equal.
  replace (a - ((b + 2 ^ 31) mod 2 ^ 32 - 2 ^ 31) + 2 ^ 31)
    with (a + 2 ^ 31 + 2 ^ 31 - (b + 2 ^ 31) mod 2 ^ 32) by ring.
  rewrite Zminus_mod_idemp_r. f_equal. ring.
Qed.

Lemma wrap_int_add_r (a b : Z) : wrap_int (a + wrap_int b) = wrap_int (a + b).
Proof.
  unfold wrap_int. f_equal.
  replace (a + ((b + 2 ^ 31) mod 2 ^ 32 - 2 ^ 31) + 2 ^ 31)
    with (a + (b + 2 ^ 31) mod 2 ^ 32) by ring.
  rewrite Zplus_mod_idemp_r. f_equal. ring.
Qed.

Lemma wrap_int_id (z : Z) : - 2 ^ 31 <= z < 2 ^ 31 -> wrap_int z = z.
Proof.
  intros H. unfold wrap_int.
  rewrite Z.mod_small; [ring|].
  change (2 ^ 32) with (2 ^ 31 + 2 ^ 31). lia.
Qed.

(** X11. After a left press at [p], however the pointer then moves, the
    window's corner has moved by exactly what the pointer has moved since
    the press, in the [int] arithmetic of [QPoint]: the pointer keeps its
    place inside the window.  When the corner so moved fits an [int], it
    is the sum in the integers. *)
Theorem drag_follows_pointer (l : ImageLabel) (p q : QPoint) (path : list QPoint) :
  let l' := fold_left mouse (map Move (path ++ [q]))
              (mousePressEvent LeftButton p l) in
  topLeft l' = QPoint_add (topLeft l) (QPoint_sub q p)
  /\ QPoint_sub q (topLeft l') = QPoint_sub p (topLeft l)
  /\ _drag_active l' = true
  /\ (- 2 ^ 31 <= px (topLeft l) + (px q - px p) < 2 ^ 31 ->
      px (topLeft l') = px (topLeft l) + (px q - px p))
  /\ (- 2 ^ 31 <= py (topLeft l) + (py q - py p) < 2 ^ 31 ->
      py (topLeft l') = py (topLeft l) + (py q - py p)).
Proof.
  cbv zeta.
  assert (K : forall path l0,
             _drag_active l0 = true ->
             _drag_active (fold_left mouse (map Move path) l0) = true
             /\ _drag_position (fold_left mouse (map Move path) l0)
                = _drag_position l0).
  { induction path0 as [|r path0 IH]; intros l0 H; simpl; [auto|].
    destruct (IH (mouseMoveEvent r l0)) as [A B].
    - unfold mouseMoveEvent. rewrite H. reflexivity.
    - split; [exact A|]. rewrite B. unfold mouseMoveEvent. rewrite H.
      reflexivity. }
  rewrite map_app, fold_left_app.
  destruct (K path (mousePressEvent LeftButton p l) eq_refl) as [A B].
  set (l1 := fold_left mouse (map Move path) (mousePressEvent LeftButton p l))
    in *.
  change (fold_left mouse (map Move [q]) l1) with (mouseMoveEvent q l1).
  unfold mouseMoveEvent. rewrite A, B.
  cbn [topLeft _drag_active _drag_position mousePressEvent].
  unfold QPoint_add, QPoint_sub. cbn [px py].
  rewrite !wrap_int_sub_r, !wrap_int_add_r.
  split; [f_equal; f_equal; ring|].
  split; [f_equal; f_equal; ring|].
  split; [reflexivity|].
  split; intros R;
    (rewrite <- (wrap_int_id _ R); f_equal; ring).
Qed.

Lemma idle_mouse (evs : list mouse_event) (l : ImageLabel) :
  _drag_active l = false ->
  forallb (fun ev => negb (is_left_press ev)) evs = true ->
  topLeft (fold_left mouse evs l) = topLeft l
  /\ _drag_active (fold_left mouse evs l) = false.
Proof.
  revert l. induction evs as [|ev evs IH]; intros l H Hevs; simpl; [auto|].
  simpl in Hevs. apply andb_prop in Hevs. destruct Hevs as [E Hevs].
  assert (K : topLeft (mouse l ev) = topLeft l
              /\ _drag_active (mouse l ev) = false).
  { destruct ev as [[| |] g|g|b]; simpl in *; try discriminate; auto.
    unfold mouseMoveEvent. rewrite H. auto. }
  destruct K as [K1 K2].
  destruct (IH (mouse l ev) K2 Hevs) as [A B].
  split; [congruence|exact B].
Qed.

(** X12. Mouse events other than a left press never move the window while no
    drag is active, and start none; and once a button is released they do
    not move it either, whatever drag was going on before. *)
Theorem no_drag_no_move (l : ImageLabel) (evs : list mouse_event) :
  forallb (fun ev => negb (is_left_press ev)) evs = true ->
  (_drag_active l = false ->
   topLeft (fold_left mouse evs l) = topLeft l
   /\ _drag_active (fold_left mouse evs l) = false)
  /\ (forall button,
        topLeft (fold_left mouse evs (mouse l (Release button))) = topLeft l).
Proof.
  intros Hevs. split.
  - intros H. apply idle_mouse; assumption.
  - intros button.
    destruct (idle_mouse evs (mouse l (Release button)) eq_refl Hevs) as [A _].
    rewrite A. reflexivity.
Qed.

Lemma no_drag_no_move_witness :
  topLeft (fold_left mouse
             [Move {| px := 5; py := 5 |};
              Press RightButton {| px := 6; py := 7 |};
              Move {| px := 40; py := 2 |};
              Release RightButton]
             (ImageLabel_init {| px := 100; py := 200 |}))
  = {| px := 100; py := 200 |}.
Proof.
  apply (no_drag_no_move (ImageLabel_init {| px := 100; py := 200 |})
           [Move {| px := 5; py := 5 |};
            Press RightButton {| px := 6; py := 7 |};
            Move {| px := 40; py := 2 |};
            Release RightButton]);
    reflexivity.
Defined.

(** ** The whole program: what every reachable state satisfies *)

Section Reachable.

Variable CONFIG : Config.
Variable GetAllSessions : Z -> list session.
Variable GetPeakValue : meter -> Z -> reading.

Local Open Scope list_scope.

Local Abbreviation run_iteration := (run_iteration CONFIG GetAllSessions GetPeakValue).
Local Abbreviation join_loop := (join_loop CONFIG GetAllSessions GetPeakValue).
Local Abbreviation closeEvent := (closeEvent CONFIG GetAllSessions GetPeakValue).
Local Abbreviation step := (step CONFIG GetAllSessions GetPeakValue).
Local Abbreviation exec := (exec CONFIG GetAllSessions GetPeakValue).
Local Abbreviation find_target := (find_target CONFIG).

(** A loop iteration calls back at most once, and the view has handled
    the sample when the iteration ends. *)
Lemma run_iteration_callback (s : System) :
  (callbacks (log (run_iteration s)) = callbacks (log s)
   /\ app (run_iteration s) = app s)
  \/ exists v,
      callbacks (log (run_iteration s)) = callbacks (log s) ++ [v]
      /\ app (run_iteration s) = update_image CONFIG v (app s).
Proof.
  unfold run_iteration.
  destruct (state s) as [|m|]; destruct (running s); simpl; auto.
  - destruct (find_target (GetAllSessions (now s))); simpl.
    + left. rewrite !callbacks_app. simpl. rewrite !app_nil_r. auto.
    + right. exists 0.0%float. rewrite !callbacks_app. simpl.
      rewrite !app_nil_r. auto.
  - right. destruct (GetPeakValue m (now s)) as [v|exc]; simpl.
    + exists v. rewrite !callbacks_app. auto.
    + exists 0.0%float. rewrite !callbacks_app. simpl. rewrite !app_nil_r. auto.
Qed.

Lemma running_run_iteration (s : System) :
  running (run_iteration s) = running s.
Proof.
  unfold run_iteration.
  destruct (state s) as [|m|]; destruct (running s) eqn:R;
    try (simpl; congruence).
  - destruct (find_target (GetAllSessions (now s))); simpl; congruence.
  - destruct (GetPeakValue m (now s)); simpl; congruence.
Qed.

Section Lifting.

(** A property of the view that every event keeps is kept by every step
    of the program, because the monitor reaches the view only through
    [update_image]. *)
Variable Inv : App -> Prop.
Hypothesis Inv_handle : forall a ev, Inv a -> Inv (handle CONFIG a ev).

Lemma Inv_run_iteration (s : System) :
  Inv (app s) -> Inv (app (run_iteration s)).
Proof.
  intros H. destruct (run_iteration_callback s) as [[_ E]|[v [_ E]]];
    rewrite E; [exact H|].
  apply (Inv_handle (app s) (Sample v)). exact H.
Qed.

Lemma Inv_join_loop (fuel : nat) (deadline : Z) (s : System) :
  Inv (app s) -> Inv (app (join_loop fuel deadline s)).
Proof.
  revert s. induction fuel as [|k IH]; intros s H; simpl.
  - destruct (state s); try exact H;
      destruct (deadline <? Z.max (now s) (wake s)); exact H.
  - destruct (state s); try exact H;
      (destruct (deadline <? Z.max (now s) (wake s)); [exact H|]);
      apply IH; apply Inv_run_iteration; exact H.
Qed.

Lemma Inv_step (s s' : System) (a : action) :
  Inv (app s) -> step s a = Some s' -> Inv (app s').
Proof.
  intros H Hstep. destruct a as [|d| |ev|]; simpl in Hstep.
  - destruct ((wake s <=? now s) && negb (is_stopped (state s)))%bool;
      [|discriminate].
    injection Hstep as <-. apply Inv_run_iteration. exact H.
  - destruct (0 <=? d); [|discriminate]. injection Hstep as <-. exact H.
  - injection Hstep as <-. exact H.
  - injection Hstep as <-. apply Inv_handle. exact H.
  - injection Hstep as <-. unfold closeEvent, join.
    cbn [app accept]. apply Inv_join_loop. exact H.
Qed.

Lemma Inv_exec (acts : list action) (s s' : System) :
  Inv (app s) -> exec s acts = Some s' -> Inv (app s').
Proof.
  revert s. induction acts as [|a acts IH]; intros s H Hexec; simpl in Hexec.
  - injection Hexec as <-. exact H.
  - destruct (step s a) as [s1|] eqn:E; [|discriminate].
    apply (IH s1); [|exact Hexec]. apply (Inv_step s s1 a H E).
Qed.

End Lifting.

Lemma reachable_view_inv (path_exists : string -> bool) (s0 s : System)
    (acts : list action) :
  App_init CONFIG path_exists = Constructed s0 ->
  exec s0 acts = Some s ->
  view_inv (app s).
Proof.
  intros Hinit Hexec.
  apply (Inv_exec view_inv (view_inv_handle CONFIG) acts s0 s); [|exact Hexec].
  rewrite (App_init_app CONFIG path_exists s0 Hinit).
  apply view_inv_constructed.
Qed.

Lemma view_inv_deliver (evs : list ui_event) (a : App) :
  view_inv a -> view_inv (deliver CONFIG a evs).
Proof.
  revert a. induction evs as [|ev evs IH]; intros a H; simpl; [exact H|].
  apply IH. apply view_inv_handle. exact H.
Qed.

(** X1. After the construction and any sequence of whole calls of the
    view's handlers, one after another (samples, wheel turns, size keys,
    timeouts), some image is current and the label shows that image drawn
    at the current scale. *)
Theorem label_shows_current_image (evs : list ui_event) :
  let a := deliver CONFIG (App_constructed CONFIG) evs in
  exists img,
    current_image a = Some img
    /\ displayed a = Some (img, scale a).
Proof.
  intros a.
  destruct (view_inv_deliver evs (App_constructed CONFIG)
              (view_inv_constructed CONFIG)) as [A _].
  exact A.
Qed.

(** X2. In every state the program reaches from its construction, the scale
    and the target scale lie in [0.1, 2.0], and the scale is one of the
    hundredths 0.10, 0.12, ..., 2.00. *)
Theorem scales_stay_in_range (path_exists : string -> bool)
    (s0 s : System) (acts : list action) :
  App_init CONFIG path_exists = Constructed s0 ->
  exec s0 acts = Some s ->
  ((0.1 <=? scale (app s))%float = true
   /\ (scale (app s) <=? 2.0)%float = true)
  /\ ((0.1 <=? target_scale (app s))%float = true
      /\ (target_scale (app s) <=? 2.0)%float = true)
  /\ exists k, (k < 96)%nat /\ scale (app s) = hundredths (10 + 2 * k).
Proof.
  intros Hinit Hexec.
  destruct (reachable_view_inv path_exists s0 s acts Hinit Hexec)
    as [_ [Hs Ht]].
  destruct (grid_ok_parts _ _ (grid_ok_In _ _ Ht Hs)) as [_ [A [B _]]].
  pose proof (target_ok_In _ Ht) as K. unfold target_ok in K.
  repeat (apply andb_prop in K; destruct K as [K ?]).
  split; [split; assumption|]. split; [split; assumption|].
  rewrite scale_set_grid in Hs. apply in_map_iff in Hs.
  destruct Hs as [k [E Hk]]. apply in_seq in Hk.
  exists k. split; [lia|symmetry; exact E].
Qed.

(** X3. From every state the program reaches from its construction, a timeout
    that finds the gap above 0.001 strictly shrinks it, 95 timeouts bring
    the scale within 0.001 of the target, and further timeouts change
    nothing. *)
Theorem animation_settles (path_exists : string -> bool)
    (s0 s : System) (acts : list action) :
  App_init CONFIG path_exists = Constructed s0 ->
  exec s0 acts = Some s ->
  let a := app s in
  (py_gt (abs (target_scale a - scale a)) 0.001 = true ->
   (abs (target_scale a - scale (animate_resize a))
      <? abs (target_scale a - scale a))%float = true)
  /\ py_gt (abs (target_scale a - scale (ticks 95 a))) 0.001 = false
  /\ (forall n, ticks (95 + n) a = ticks 95 a).
Proof.
  intros Hinit Hexec a.
  destruct (reachable_view_inv path_exists s0 s acts Hinit Hexec)
    as [_ [Hs Ht]].
  fold a in Hs, Ht.
  destruct (grid_ok_parts _ _ (grid_ok_In _ _ Ht Hs)) as [_ [_ [_ [R D]]]].
  assert (S95 : py_gt (abs (target_scale a - scale (ticks 95 a))) 0.001 = false).
  { rewrite scale_ticks. apply settled_by_rank; assumption. }
  split; [|split; [exact S95|]].
  - intros G. rewrite scale_animate_resize. apply (D G).
  - intros n. rewrite ticks_add. apply ticks_settled.
    rewrite target_ticks. exact S95.
Qed.

End Reachable.

(** ** The monitor thread: runs, recovery and shutdown *)

Section MonitorRuns.

Variable CONFIG : Config.
Variable GetAllSessions : Z -> list session.
Variable GetPeakValue : meter -> Z -> reading.

Local Open Scope list_scope.

Local Abbreviation run_iteration := (run_iteration CONFIG GetAllSessions GetPeakValue).
Local Abbreviation closeEvent := (closeEvent CONFIG GetAllSessions GetPeakValue).
Local Abbreviation step := (step CONFIG GetAllSessions GetPeakValue).
Local Abbreviation exec := (exec CONFIG GetAllSessions GetPeakValue).
Local Abbreviation find_target := (find_target CONFIG).

Lemma searching_none (s : System) :
  state s = Searching -> running s = true ->
  find_target (GetAllSessions (now s)) = None ->
  run_iteration s
  = sleep 15000
      (callback CONFIG 0.0%float
         (print ("Error: " ++ TARGET_APP CONFIG
                   ++ " not found. Retrying in 15 seconds...")
            (print "Searching for target application..." s))).
Proof.
  intros Hs Hr Hn. unfold run_iteration. rewrite Hs, Hr, Hn. reflexivity.
Qed.

(** X6. While no target session shows up, the searches go on 15 s apart, each
    calling back once with 0.0; and at the first search that finds a
    target the thread attaches to its meter without calling back. *)
Theorem fruitless_searches (n : nat) (s : System) :
  state s = Searching -> running s = true -> wake s <= now s ->
  (forall k, (k < n)%nat ->
     find_target (GetAllSessions (now s + 15000 * Z.of_nat k)) = None) ->
  exists s',
    exec s (searches n) = Some s'
    /\ state s' = Searching
    /\ now s' = now s + 15000 * Z.of_nat n
    /\ callbacks (log s') = callbacks (log s) ++ repeat 0.0%float n
    /\ forall t, find_target (GetAllSessions (now s')) = Some t ->
         exists s'',
           step s' Work = Some s''
           /\ state s'' = Attached (ctl t)
           /\ callbacks (log s'') = callbacks (log s')
           /\ now s'' = now s'.
Proof.
  revert s. induction n as [|n IH]; intros s Hs Hr Hw Hnone.
  - exists s. simpl. rewrite app_nil_r.
    split; [reflexivity|]. split; [exact Hs|]. split; [lia|].
    split; [reflexivity|].
    intros t Ht. exists (run_iteration s).
    split; [apply step_work; [exact Hw|congruence]|].
    unfold run_iteration. rewrite Hs, Hr, Ht. simpl.
    rewrite !callbacks_app. simpl. rewrite !app_nil_r. auto.
  - assert (H0 : find_target (GetAllSessions (now s)) = None).
    { specialize (Hnone 0%nat). simpl in Hnone.
      rewrite Z.add_0_r in Hnone. apply Hnone. lia. }
    pose proof (searching_none s Hs Hr H0) as Hrun.
    set (s1 := run_iteration s) in *.
    set (s2 := set_now (now s1 + 15000) s1).
    assert (N1 : now s1 = now s) by (rewrite Hrun; reflexivity).
    assert (W1 : wake s1 = now s + 15000) by (rewrite Hrun; reflexivity).
    assert (S1 : state s1 = Searching) by (rewrite Hrun; exact Hs).
    assert (R1 : running s1 = true) by (rewrite Hrun; exact Hr).
    assert (C1 : callbacks (log s1) = callbacks (log s) ++ [0.0%float]).
    { rewrite Hrun. simpl. rewrite !callbacks_app. simpl.
      rewrite !app_nil_r. reflexivity. }
    destruct (IH s2) as [s' [X1 [X2 [X3 [X4 X5]]]]].
    + exact S1.
    + exact R1.
    + change (wake s1 <= now s1 + 15000). lia.
    + intros k Hk. change (now s2) with (now s1 + 15000). rewrite N1.
      replace (now s + 15000 + 15000 * Z.of_nat k)
        with (now s + 15000 * Z.of_nat (S k)) by lia.
      apply Hnone. lia.
    + exists s'.
      assert (Hstep : exec s (searches (S n)) = exec s2 (searches n)).
      { cbn [searches exec]. rewrite step_work; [|exact Hw|congruence].
        reflexivity. }
      rewrite Hstep. split; [exact X1|]. split; [exact X2|].
      split; [rewrite X3; change (now s2) with (now s1 + 15000); lia|].
      split; [|exact X5].
      rewrite X4. change (log s2) with (log s1). rewrite C1.
      rewrite <- app_assoc. reflexivity.
Qed.

(** X7. [monitor.stop()] during the 100 ms sleep of an attached thread: the
    thread stays attached while the sleep lasts and leaves [run] when it
    ends, 100 ms after the poll, without reading the meter, printing or
    calling back again. *)
Theorem stop_while_attached (s0 : System) (m : meter) (d : Z) :
  state s0 = Attached m -> running s0 = true -> wake s0 <= now s0 ->
  0 <= d <= 100 ->
  exists mid,
    exec s0 [Work; Wait d] = Some mid
    /\ state mid = Attached m
    /\ now mid = now s0 + d
    /\ (forall acts s',
          exec (stop mid) acts = Some s' ->
          now s' < now s0 + 100 ->
          state s' = Attached m)
    /\ exists s',
        exec (stop mid) [Wait (100 - d); Work; Work] = Some s'
        /\ state s' = Stopped
        /\ now s' = now s0 + 100
        /\ log s' = log mid
        /\ app s' = app mid.
Proof.
  intros Hs Hr Hw Hd.
  destruct (attached_iteration CONFIG GetAllSessions GetPeakValue s0 m Hs Hr)
    as [S1 [R1 [N1 [W1 _]]]].
  set (s1 := run_iteration s0) in *.
  set (mid := set_now (now s0 + d) s1).
  exists mid. split.
  { cbn [exec]. rewrite step_work; [|exact Hw|congruence].
    cbn [step].
    assert (Hd0 : (0 <=? d) = true) by (apply Z.leb_le; lia).
    rewrite Hd0. fold s1. rewrite N1. reflexivity. }
  split; [exact S1|]. split; [reflexivity|]. split.
  - intros acts s' Hexec Hbefore.
    pose proof (now_exec CONFIG GetAllSessions GetPeakValue acts (stop mid) s'
                  Hexec) as M.
    change (now (stop mid)) with (now s0 + d) in M.
    destruct (asleep_exec CONFIG GetAllSessions GetPeakValue acts (stop mid) s')
      as [A _].
    + change (state s1 <> Stopped). congruence.
    + change (now s0 + d < wake s1). lia.
    + exact Hexec.
    + change (now s' < wake s1). lia.
    + rewrite A. exact S1.
  - set (woken := set_now (now mid + (100 - d)) (stop mid)).
    set (outer := set_state Searching woken).
    exists (set_state Stopped outer).
    assert (H1 : (0 <=? 100 - d) = true) by (apply Z.leb_le; lia).
    assert (H2 : step woken Work = Some outer).
    { rewrite step_work.
      - unfold run_iteration. change (state woken) with (state s1).
        rewrite S1. reflexivity.
      - change (wake s1 <= now s0 + d + (100 - d)). lia.
      - change (state s1 <> Stopped). congruence. }
    assert (H3 : step outer Work = Some (set_state Stopped outer)).
    { rewrite step_work.
      - reflexivity.
      - change (wake s1 <= now s0 + d + (100 - d)). lia.
      - discriminate. }
    split.
    { cbn [exec step]. rewrite H1. fold woken.
      change (match step woken Work with
              | Some s' =>
                  match step s' Work with
                  | Some s'' => Some s''
                  | None => None
                  end
              | None => None
              end = Some (set_state Stopped outer)).
      rewrite H2, H3. reflexivity. }
    split; [reflexivity|].
    split; [change (now s0 + d + (100 - d) = now s0 + 100); lia|].
    split; reflexivity.
Qed.

Lemma final_step (s s' : System) (a : action) :
  step s a = Some s' ->
  (running s = false -> running s' = false)
  /\ (state s = Stopped ->
      state s' = Stopped /\ callbacks (log s') = callbacks (log s)).
Proof.
  intros Hstep. destruct a as [|d| |ev|]; simpl in Hstep.
  - destruct (state s) eqn:Q;
      destruct (wake s <=? now s); simpl in Hstep; try discriminate;
      injection Hstep as <-;
      (split; [intros R;
               rewrite (running_run_iteration CONFIG GetAllSessions GetPeakValue);
               exact R
              |intros K; discriminate K]).
  - destruct (0 <=? d); [|discriminate]. injection Hstep as <-. auto.
  - injection Hstep as <-. auto.
  - injection Hstep as <-. auto.
  - injection Hstep as <-.
    rewrite (closeEvent_unfold CONFIG GetAllSessions GetPeakValue).
    split.
    + intros _. destruct (state s);
        try destruct (now s + 2000 <? Z.max (now s) (wake s)); reflexivity.
    + intros Q. rewrite Q. cbn. rewrite callbacks_app. simpl.
      rewrite app_nil_r. auto.
Qed.

(** X9. Nothing sets the flag again once it is cleared, and nothing revives a
    thread that has left [run]: it stays out and never calls back again. *)
Theorem stop_is_final (acts : list action) (s s' : System) :
  exec s acts = Some s' ->
  (running s = false -> running s' = false)
  /\ (state s = Stopped ->
      state s' = Stopped /\ callbacks (log s') = callbacks (log s)).
Proof.
  revert s. induction acts as [|a acts IH]; intros s Hexec; simpl in Hexec.
  - injection Hexec as <-. auto.
  - destruct (step s a) as [s1|] eqn:E; [|discriminate].
    destruct (final_step s s1 a E) as [A B].
    destruct (IH s1 Hexec) as [A' B'].
    split.
    + auto.
    + intros Q. destruct (B Q) as [B1 B2]. destruct (B' B1) as [C1 C2].
      split; [exact C1|congruence].
Qed.

Lemma wake_inv_step (s s' : System) (a : action) :
  wake_inv s -> step s a = Some s' -> wake_inv s'.
Proof.
  unfold wake_inv. intros I Hstep. destruct a as [|d| |ev|]; simpl in Hstep.
  - destruct (wake s <=? now s) eqn:W; [|discriminate].
    apply Z.leb_le in W.
    destruct (state s) as [|m|] eqn:Q; simpl in Hstep; try discriminate;
      injection Hstep as <-; unfold run_iteration; rewrite Q;
      destruct (running s); simpl; rewrite ?Q; try lia.
    + destruct (find_target (GetAllSessions (now s))); simpl; rewrite ?Q; lia.
    + destruct (GetPeakValue m (now s)); simpl; rewrite ?Q; lia.
  - destruct (0 <=? d) eqn:D; [|discriminate]. apply Z.leb_le in D.
    injection Hstep as <-. cbn [state set_now wake now]. destruct (state s); lia.
  - injection Hstep as <-. exact I.
  - injection Hstep as <-. exact I.
  - injection Hstep as <-.
    rewrite (closeEvent_unfold CONFIG GetAllSessions GetPeakValue).
    destruct (state s) as [|m|] eqn:Q;
      try (destruct (now s + 2000 <? Z.max (now s) (wake s)));
      cbn; rewrite ?Q; try lia; exact I.
Qed.

Lemma wake_inv_exec (acts : list action) (s s' : System) :
  wake_inv s -> exec s acts = Some s' -> wake_inv s'.
Proof.
  revert s. induction acts as [|a acts IH]; intros s I Hexec; simpl in Hexec.
  - injection Hexec as <-. exact I.
  - destruct (step s a) as [s1|] eqn:E; [|discriminate].
    apply (IH s1); [|exact Hexec]. apply (wake_inv_step s s1 a I E).
Qed.

(** X10. In every state the program reaches from its construction, a thread
    that is searching runs again within 15 s and one that is attached
    within 100 ms; so a close request that finds the thread attached
    always sees it leave [run], and returns from the join within 100 ms. *)
Theorem close_while_attached (path_exists : string -> bool)
    (s0 s : System) (acts : list action) :
  App_init CONFIG path_exists = Constructed s0 ->
  exec s0 acts = Some s ->
  (state s = Searching -> wake s <= now s + 15000)
  /\ (forall m, state s = Attached m ->
        wake s <= now s + 100
        /\ state (closeEvent s) = Stopped
        /\ now (closeEvent s) <= now s + 100
        /\ accepted (closeEvent s) = true).
Proof.
  intros Hinit Hexec.
  assert (I0 : wake_inv s0).
  { unfold App_init in Hinit.
    destruct (negb (path_exists (IMAGE_HIGH_VOLUME CONFIG))
              || negb (path_exists (IMAGE_LOW_VOLUME CONFIG)))%bool;
      [discriminate|].
    injection Hinit as <-. unfold wake_inv. simpl. lia. }
  pose proof (wake_inv_exec acts s0 s I0 Hexec) as I. unfold wake_inv in I.
  split.
  - intros Q. rewrite Q in I. exact I.
  - intros m Q. rewrite Q in I. split; [exact I|].
    rewrite (closeEvent_unfold CONFIG GetAllSessions GetPeakValue). rewrite Q.
    assert (E : (now s + 2000 <? Z.max (now s) (wake s)) = false)
      by (apply Z.ltb_ge; lia).
    rewrite E. cbn. repeat split; try reflexivity. lia.
Qed.

End MonitorRuns.

(** ** Instances *)

Lemma scales_stay_in_range_witness :
  exists s,
    exec DEFAULT_CONFIG one_session loud_meter booted busy_session = Some s
    /\ ((0.1 <=? scale (app s))%float = true
        /\ (scale (app s) <=? 2.0)%float = true)
    /\ ((0.1 <=? target_scale (app s))%float = true
        /\ (target_scale (app s) <=? 2.0)%float = true)
    /\ exists k, (k < 96)%nat /\ scale (app s) = hundredths (10 + 2 * k).
Proof.
  eexists. split; [vm_compute; reflexivity|].
  apply (scales_stay_in_range DEFAULT_CONFIG one_session loud_meter
           every_path booted _ busy_session);
    [reflexivity|vm_compute; reflexivity].
Defined.

Lemma animation_settles_witness :
  exists s,
    exec DEFAULT_CONFIG one_session loud_meter booted busy_session = Some s
    /\ py_gt (abs (target_scale (app s) - scale (ticks 95 (app s)))) 0.001
       = false.
Proof.
  eexists. split; [vm_compute; reflexivity|].
  apply (animation_settles DEFAULT_CONFIG one_session loud_meter
           every_path booted _ busy_session);
    [reflexivity|vm_compute; reflexivity].
Defined.

Lemma fruitless_searches_witness :
  exists s',
    exec DEFAULT_CONFIG no_sessions dead_meter booted (searches 2) = Some s'
    /\ state s' = Searching
    /\ now s' = 30000
    /\ callbacks (log s') = [0.0; 0.0]%float.
Proof.
  destruct (fruitless_searches DEFAULT_CONFIG no_sessions dead_meter 2 booted
              eq_refl eq_refl (Z.le_refl 0))
    as [s' [A [B [C [D _]]]]].
  - intros k _. reflexivity.
  - exists s'. split; [exact A|]. split; [exact B|]. split; [exact C|exact D].
Defined.

Lemma stop_while_attached_witness :
  exists mid,
    exec DEFAULT_CONFIG one_session dead_meter attached_example [Work; Wait 40]
      = Some mid
    /\ exists s',
        exec DEFAULT_CONFIG one_session dead_meter (stop mid)
          [Wait 60; Work; Work] = Some s'
        /\ state s' = Stopped
        /\ now s' = 100.
Proof.
  destruct (stop_while_attached DEFAULT_CONFIG one_session dead_meter
              attached_example 7%nat 40 eq_refl eq_refl (Z.le_refl 0))
    as [mid [A [_ [_ [_ [s' [B [C [D _]]]]]]]]].
  - lia.
  - exists mid. split; [exact A|]. exists s'.
    split; [exact B|]. split; [exact C|exact D].
Defined.

Lemma stop_is_final_witness :
  exists s',
    exec DEFAULT_CONFIG one_session loud_meter stopped_example
      [Wait 5; Ui (Sample 0.9%float); Close] = Some s'
    /\ (running stopped_example = false -> running s' = false)
    /\ (state stopped_example = Stopped ->
        state s' = Stopped
        /\ callbacks (log s') = callbacks (log stopped_example)).
Proof.
  eexists. split; [vm_compute; reflexivity|].
  apply (stop_is_final DEFAULT_CONFIG one_session loud_meter
           [Wait 5; Ui (Sample 0.9%float); Close] stopped_example).
  vm_compute. reflexivity.
Defined.

Lemma close_while_attached_witness :
  exists s,
    exec DEFAULT_CONFIG one_session dead_meter booted [Work; Work; Wait 30]
      = Some s
    /\ state (closeEvent DEFAULT_CONFIG one_session dead_meter s) = Stopped
    /\ now (closeEvent DEFAULT_CONFIG one_session dead_meter s) <= now s + 100.
Proof.
  eexists. split; [vm_compute; reflexivity|].
  match goal with
  | |- state (closeEvent _ _ _ ?s) = _ /\ _ =>
      destruct (close_while_attached DEFAULT_CONFIG one_session dead_meter
                  every_path booted s [Work; Work; Wait 30])
        as [_ H]
  end.
  - reflexivity.
  - vm_compute. reflexivity.
  - destruct (H 7%nat eq_refl) as [_ [A [B _]]]. split; [exact A|exact B].
Defined.
